(** * Klave secure rooms: the data-room contract objects and the client
      request wrappers, embedded and verified.

    The development follows the three source files:
    - the [UserRequests] ledger collection (dataroom/userRequests),
    - the [Keys] ledger object (dataroom/keys.ts),
    - the client request wrappers built on the secretarium handler.

    Part I embeds the code; Part II states and proves its properties. *)

From Stdlib Require Import String Ascii List ZArith Lia Bool.
From stdpp Require Import base option gmap strings.
Import ListNotations.

(* ================================================================== *)
(** * Part I: the embedding *)
(* ================================================================== *)

(** ** Language-level operations used by the sources

    Strings are sequences of code units; [==] on strings compares
    contents (AssemblyScript and JavaScript alike), array indices are
    32-bit integers, kept here as [Z] (an array never holds 2^31
    entries, so no wrap-around is reachable). *)
Module JS.

(** [s.slice(n)]: the string without its first [n] code units. *)
Fixpoint drop_chars (n : nat) (s : string) : string :=
  match n, s with
  | S n', String _ s' => drop_chars n' s'
  | _, _ => s
  end.

(** [s.replace(pat, rep)] with a string pattern: only the first
    occurrence of [pat] is replaced.  ([rep] is ['']  at every call
    site, so the [$]-patterns of the replacement text never arise.) *)
Fixpoint replace (s pat rep : string) : string :=
  if String.prefix pat s then rep +:+ drop_chars (String.length pat) s
  else match s with
       | EmptyString => EmptyString
       | String c s' => String c (replace s' pat rep)
       end.

(** [s.replace(/c/g, '')] for a one-character regular expression:
    every occurrence of the character is removed. *)
Fixpoint remove_all (c : ascii) (s : string) : string :=
  match s with
  | EmptyString => EmptyString
  | String d s' => if Ascii.eqb d c then remove_all c s'
                   else String d (remove_all c s')
  end.

(** [Array<string>#indexOf(value)], scanning from index [i]:
    the index of the first equal entry, [-1] when there is none. *)
Fixpoint indexOf_from (i : Z) (l : list string) (value : string) : Z :=
  match l with
  | [] => (-1)%Z
  | x :: l' => if String.eqb x value then i
               else indexOf_from (i + 1)%Z l' value
  end.

Definition indexOf (l : list string) (value : string) : Z :=
  indexOf_from 0%Z l value.

(** [Array#splice(start, deleteCount)], as the array it leaves behind
    (the removed slice it returns is unused in the sources).  A negative
    [start] counts from the end; both arguments are clamped. *)
Definition splice {A : Type} (l : list A) (start deleteCount : Z) : list A :=
  let len := Z.of_nat (length l) in
  let start := if (start <? 0)%Z then Z.max (len + start) 0
               else Z.min start len in
  let deleteCount := Z.max (Z.min deleteCount (len - start)) 0 in
  take (Z.to_nat start) l ++ drop (Z.to_nat (start + deleteCount)) l.

End JS.

(** ** The Klave SDK as the contract sees it

    The ledger, the call context and the notification channel are the
    contract's world.  A contract method either returns normally or
    aborts the transaction (AssemblyScript has no catchable
    exceptions: a throw traps). *)
Module Klave.

Inductive Completion (A : Type) : Type :=
| Normal (a : A)
| Trap (reason : string).
Arguments Normal {A} a.
Arguments Trap {A} reason.

(** [KeysList] of outputs/types: the two public keys in PEM form. *)
Record KeysList : Type := mkKeysList {
  klaveServer_spki_pem : string;
  storageServer_spki_pem : string
}.

(** What a call pushes back to its caller: the messages of [success]
    and [error] of klave/types, and the structured payloads handed to
    [Notifier.sendJson]. *)
Inductive Notification : Type :=
| SuccessMessage (message : string)
| ErrorMessage (message : string)
| ListOutput (requestId : string) (result : list string)
| TokenIdentityOutput (requestId : string) (result : KeysList).

Record World : Type := mkWorld {
  ledger : gmap (string * string) string;   (* table name, row key *)
  context : gmap string string;             (* Context.get *)
  notifications : list Notification         (* oldest first *)
}.

Definition Contract (A : Type) : Type := World -> Completion (A * World).

#[global] Instance Contract_ret : MRet Contract :=
  fun A a w => Normal (a, w).

#[global] Instance Contract_bind : MBind Contract :=
  fun A B f m w =>
    match m w with
    | Normal (a, w') => f a w'
    | Trap reason => Trap reason
    end.

Definition abort {A : Type} (reason : string) : Contract A :=
  fun _ => Trap reason.

(** The world after the notifications [ns] have been pushed. *)
Definition emitting (ns : list Notification) (w : World) : World :=
  mkWorld (ledger w) (context w) (notifications w ++ ns).

Definition notify (n : Notification) : Contract unit :=
  fun w => Normal (tt, emitting [n] w).

Definition success (message : string) : Contract unit :=
  notify (SuccessMessage message).

Definition error (message : string) : Contract unit :=
  notify (ErrorMessage message).

(** [Context.get(key)] *)
Definition Context_get (key : string) : Contract string :=
  fun w => Normal (default "" (context w !! key), w).

(** The request id the structured results are tagged with. *)
Definition request_id (w : World) : string :=
  default "" (context w !! "request_id").

(** [Ledger.getTable(table).get(key)]: the empty string for an absent row. *)
Definition Table_get (table key : string) : Contract string :=
  fun w => Normal (default "" (ledger w !! (table, key)), w).

(** [Ledger.getTable(table).set(key, value)] *)
Definition Table_set (table key value : string) : Contract unit :=
  fun w => Normal (tt, mkWorld (<[(table, key) := value]> (ledger w))
                               (context w) (notifications w)).

(** The [@JSON] decorator: a text codec for a class.  Parsing a text
    that is not a serialised object aborts. *)
Class JSON (T : Type) : Type := {
  JSON_stringify : T -> string;
  JSON_parse : string -> option T
}.

(** What the contract relies on from the codec: parsing gives back what
    was serialised, and no object serialises to the empty text. *)
Class JSONFaithful (T : Type) `{JSON T} : Prop := {
  JSON_parse_stringify : forall x : T, JSON_parse (JSON_stringify x) = Some x;
  JSON_stringify_nonempty : forall x : T, String.length (JSON_stringify x) <> 0
}.

Definition parse {T : Type} `{JSON T} (text : string) : Contract T :=
  match JSON_parse text with
  | Some x => mret x
  | None => abort "JSON.parse"
  end.

End Klave.
Export Klave.

(** ** dataroom/userRequests: the [UserRequests] collection *)

(** The [UserRequest] class lives in dataroom/userRequest, outside the
    sources at hand; the collection uses it through this interface.
    Its methods run in the contract's world: they may read and write
    the ledger and notify.  [delete] hands back the object as it
    leaves it, since the caller reads [userRequest.id] afterwards. *)
Class UserRequestClass : Type := {
  UserRequest : Type;
  UserRequest_id : UserRequest -> string;
  UserRequest_new : string -> string -> Contract UserRequest;
  UserRequest_load : string -> Contract (option UserRequest);
  UserRequest_save : UserRequest -> Contract unit;
  UserRequest_delete : UserRequest -> Contract UserRequest
}.

Module UserRequests.

Definition UserRequestsTable : string := "UserRequestsTable".

Record t : Type := mk {
  userRequests : list string
}.

(** [constructor()] *)
Definition new : t := mk [].

(** What the ledger answers for the collection's row. *)
Definition allRow (w : World) : string :=
  default "" (ledger w !! (UserRequestsTable, "ALL")).

Section Methods.
Context `{JSON t} `{UserRequestClass}.

Definition load : Contract t :=
  userRequestsTable ← Table_get UserRequestsTable "ALL";
  if (String.length userRequestsTable =? 0)%nat then mret new
  else
    wlt ← parse userRequestsTable;
    mret wlt.

Definition save (this : t) : Contract unit :=
  let userRequestsTable := JSON_stringify this in
  Table_set UserRequestsTable "ALL" userRequestsTable.

Definition addUserRequest (this : t) (dataRoomId role : string)
  : Contract (bool * t) :=
  userRequest ← UserRequest_new dataRoomId role;
  _ ← UserRequest_save userRequest;
  let this := mk (userRequests this ++ [UserRequest_id userRequest]) in
  _ ← success ("UserRequest added successfully: " +:+ UserRequest_id userRequest);
  mret (true, this).

Definition removeUserRequest (this : t) (userId : string)
  : Contract (bool * t) :=
  userRequest ← UserRequest_load userId;
  match userRequest with
  | None =>
      _ ← error ("UserRequest not found: " +:+ userId);
      mret (false, this)
  | Some userRequest =>
      userRequest ← UserRequest_delete userRequest;
      let index := JS.indexOf (userRequests this) (UserRequest_id userRequest) in
      let this := mk (JS.splice (userRequests this) index 1) in
      mret (true, this)
  end.

(** The loop of [delete]: every referenced child that still loads is
    deleted. *)
Fixpoint delete_children (ids : list string) : Contract unit :=
  match ids with
  | [] => mret tt
  | id :: ids' =>
      userRequest ← UserRequest_load id;
      _ ← match userRequest with
          | Some userRequest => _ ← UserRequest_delete userRequest; mret tt
          | None => mret tt
          end;
      delete_children ids'
  end.

Definition delete (this : t) : Contract t :=
  _ ← delete_children (userRequests this);
  let this := mk [] in
  _ ← save this;
  mret this.

Definition list (this : t) : Contract unit :=
  _ ← (if (length (userRequests this) =? 0)%nat
       then success "No userRequest found in the list of userRequests"
       else mret tt);
  requestId ← Context_get "request_id";
  notify (ListOutput requestId (userRequests this)).

End Methods.
End UserRequests.

(** ** dataroom/keys.ts: the [Keys] object *)

(** [Result<T>] of the SDK's crypto modules: [data] is null on failure. *)
Record Result (T : Type) : Type := mkResult { data : option T }.
Arguments mkResult {T} data.
Arguments data {T} r.

(** The crypto modules of the Klave SDK that [Keys] calls.  They are
    lookups in the enclave's key store, which no method below
    modifies. *)
Class CryptoSDK : Type := {
  KeyECC : Type;
  CryptoKey : Type;
  ArrayBuffer : Type;
  Crypto_ECDSA_getKey : string -> option KeyECC;
  KeyECC_getPublicKey_getPem : KeyECC -> string;
  SubtleCrypto_loadKey : string -> option (Result CryptoKey);
  SubtleCrypto_exportKey : string -> CryptoKey -> option (Result ArrayBuffer);
  String_UTF8_decode : ArrayBuffer -> string
}.

(** [Crypto.ECDSA.generateKey(name)] and the [name] of the key it
    hands back.  The answer is null, or a result whose [data] is null,
    when no key could be created. *)
Class CryptoKeyGen `{CryptoSDK} : Type := {
  Crypto_ECDSA_generateKey : string -> option (Result KeyECC);
  KeyECC_name : KeyECC -> string
}.

Module Keys.

Definition KeysTable : string := "KeysTable".

Record t : Type := mk {
  klaveServer_private_key : string;
  storageServer_private_key : string
}.

(** [constructor()] *)
Definition new : t := mk "" "".

Section Methods.
Context `{CryptoSDK}.

Definition exportStorageServerPrivateKey (this : t) (format : option string)
  : Contract bool :=
  let format := default "raw" format in
  if String.eqb (storageServer_private_key this) "" then
    _ ← error "Storage server private key does not exist.";
    mret false
  else
  match Crypto_ECDSA_getKey (storageServer_private_key this) with
  | None =>
      _ ← error ("Issue retrieving the key: " +:+ storageServer_private_key this);
      mret false
  | Some storageServer_key =>
  match SubtleCrypto_loadKey (storageServer_private_key this) with
  | None | Some {| data := None |} =>
      _ ← error ("Issue loading the key: " +:+ storageServer_private_key this);
      mret false
  | Some {| data := Some cryptoKey_data |} =>
  match SubtleCrypto_exportKey format cryptoKey_data with
  | None | Some {| data := None |} =>
      _ ← error ("Issue exporting the key: " +:+ storageServer_private_key this);
      mret false
  | Some {| data := Some arrayBuffer |} =>
      _ ← success (String_UTF8_decode arrayBuffer);
      mret true
  end end end.

Definition clearKeys (this : t) : Contract (bool * t) :=
  let this := mk "" (storageServer_private_key this) in
  let this := mk (klaveServer_private_key this) "" in
  _ ← success "Both klaveServer and storageServer keys now removed successfully";
  mret (true, this).

Definition list (this : t) : Contract unit :=
  if String.eqb (klaveServer_private_key this) ""
     && String.eqb (storageServer_private_key this) "" then
    success "No keys have been set yet."
  else
  match Crypto_ECDSA_getKey (klaveServer_private_key this) with
  | None => error ("Issue retrieving the key: " +:+ klaveServer_private_key this)
  | Some klaveServer_key =>
  let klaveServer_spki_pem := KeyECC_getPublicKey_getPem klaveServer_key in
  match Crypto_ECDSA_getKey (storageServer_private_key this) with
  | None => error ("Issue retrieving the key: " +:+ storageServer_private_key this)
  | Some storageServer_key =>
  let storageServer_spki_pem := KeyECC_getPublicKey_getPem storageServer_key in
  let keysList := mkKeysList klaveServer_spki_pem storageServer_spki_pem in
  requestId ← Context_get "request_id";
  notify (TokenIdentityOutput requestId keysList)
  end end.

Definition isSet (this : t) : bool :=
  if String.eqb (klaveServer_private_key this) ""
     || String.eqb (storageServer_private_key this) "" then false
  else true.

End Methods.

(** What the ledger answers for the keys' row. *)
Definition allRow (w : World) : string :=
  default "" (ledger w !! (KeysTable, "ALL")).

Section Persistence.
Context `{JSON t}.

Definition load : Contract t :=
  keysTable ← Table_get KeysTable "ALL";
  if (String.length keysTable =? 0)%nat then mret new
  else
    wlt ← parse keysTable;
    mret wlt.

Definition save (this : t) : Contract unit :=
  let keysTable := JSON_stringify this in
  Table_set KeysTable "ALL" keysTable.

End Persistence.

Section Generation.
Context `{CryptoKeyGen}.

Definition generateKlaveServerPrivateKey (this : t) : Contract (bool * t) :=
  match Crypto_ECDSA_generateKey (klaveServer_private_key this) with
  | None | Some {| data := None |} =>
      _ ← success "KlaveServer private key could not be created.";
      mret (false, this)
  | Some {| data := Some key_data |} =>
      let this := mk (KeyECC_name key_data) (storageServer_private_key this) in
      mret (true, this)
  end.

Definition generateStorageServerPrivateKey (this : t) : Contract (bool * t) :=
  match Crypto_ECDSA_generateKey (storageServer_private_key this) with
  | None | Some {| data := None |} =>
      _ ← success "KlaveServer private key could not be created.";
      mret (false, this)
  | Some {| data := Some key_data |} =>
      let this := mk (klaveServer_private_key this) (KeyECC_name key_data) in
      mret (true, this)
  end.

End Generation.
End Keys.

(** ** The client request wrappers (secretarium handler) *)
Module Api.

(** JSON-shaped values exchanged with the handler.  The typed inputs of
    the wrappers ([UserRequestInput], [UpdateDataRoomInput], ...) are
    declared elsewhere and passed through untouched, so they stay
    opaque values here. *)
#[local] Unset Elimination Schemes.
Inductive JSValue : Type :=
| JSUndefined
| JSBool (b : bool)
| JSString (s : string)
| JSArray (items : list JSValue)
| JSObject (fields : list (string * JSValue)).
#[local] Set Elimination Schemes.

Definition optional (s : option string) : JSValue :=
  match s with
  | Some s => JSString s
  | None => JSUndefined
  end.

(** A promise is pending or settled; settling is final. *)
Inductive Promise (A : Type) : Type :=
| Pending
| Fulfilled (value : A)
| Rejected (reason : JSValue).
Arguments Pending {A}.
Arguments Fulfilled {A} value.
Arguments Rejected {A} reason.

(** [resolve(value)] and [reject(reason)] of a promise executor: they
    settle a pending promise and do nothing to a settled one. *)
Definition resolve {A : Type} (p : Promise A) (value : A) : Promise A :=
  match p with
  | Pending => Fulfilled value
  | _ => p
  end.

Definition reject {A : Type} (p : Promise A) (reason : JSValue) : Promise A :=
  match p with
  | Pending => Rejected reason
  | _ => p
  end.

(** [p.then(onFulfilled)] where [onFulfilled] returns a promise. *)
Definition then_ {A B : Type} (p : Promise A) (onFulfilled : A -> Promise B)
  : Promise B :=
  match p with
  | Pending => Pending
  | Fulfilled value => onFulfilled value
  | Rejected reason => Rejected reason
  end.

(** The three closures a wrapper hands over, as events: a run of the
    result handler, a run of the error handler, and a run of the
    rejection handler given to [tx.send().catch].  The last one is not
    the moment [send()] rejects: the engine runs the handler as a
    microtask after that, so callbacks fired in between come before it
    (see [invocations] below). *)
Inductive TxEvent : Type :=
| OnResult (result : JSValue)
| OnError (error : JSValue)
| SendCatch (reason : JSValue).

(** A transaction handle, by the runs of the wrapper's closures it
    leads to, in the order in which they run. *)
Record Transaction : Type := mkTransaction {
  events : list TxEvent
}.

Record Request : Type := mkRequest {
  dcApp : string;
  command : string;
  args : JSValue;
  id : string
}.

(** The secretarium handler and the ambient runtime during one call:
    the answers [isConnected()] gives at the successive polls, the text
    of the [Math.random()] drawn for the tag, and what [request]
    promises. *)
Record Handler : Type := mkHandler {
  isConnected : list bool;
  Math_random : string;
  request : Request -> Promise Transaction
}.

(** [loopCondition]: resolve at the first poll that finds the
    connection up, otherwise poll again after the timeout.  While the
    connection has not come up the promise stays pending. *)
Fixpoint loopCondition (polls : list bool) : Promise unit :=
  match polls with
  | [] => Pending
  | true :: _ => resolve Pending tt
  | false :: later => loopCondition later
  end.

Definition waitForConnection (h : Handler) : Promise unit :=
  loopCondition (isConnected h).

(** The executor every wrapper hands to [new Promise]:
    [tx.onResult(r => resolve(r)); tx.onError(e => reject(e));
     tx.send().catch(reject)].  Each closure, when it runs, calls
    [resolve] or [reject] on the promise. *)
Definition deliver (p : Promise JSValue) (ev : TxEvent) : Promise JSValue :=
  match ev with
  | OnResult result => resolve p result
  | OnError error => reject p error
  | SendCatch reason => reject p reason
  end.

Definition awaitTransaction (tx : Transaction) : Promise JSValue :=
  fold_left deliver (events tx) Pending.

(** *** From what the transaction does to the order of the closures

    What the handler and the engine do with a sent transaction: fire
    the result callback, fire the error callback (both are synchronous
    calls of the registered handlers), reject the promise [send()]
    returned, and let the microtask queue run the reactions queued so
    far. *)
Inductive Action : Type :=
| FireResult (result : JSValue)
| FireError (error : JSValue)
| RejectSend (reason : JSValue)
| RunReactions.

(** The run of the catch handler that a queued rejection leads to. *)
Definition reaction (queued : option JSValue) : list TxEvent :=
  match queued with
  | Some reason => [SendCatch reason]
  | None => []
  end.

(** The closures in the order they run.  A callback runs where it is
    fired.  The rejection of [send()] only queues the catch handler,
    which runs at the next [RunReactions], or once the script is over
    (the queue always drains); the promise of [send()] settles once, so
    a second [RejectSend] does nothing. *)
Fixpoint invocationsFrom (queued : option JSValue) (sendSettled : bool)
    (script : list Action) : list TxEvent :=
  match script with
  | [] => reaction queued
  | FireResult result :: rest =>
      OnResult result :: invocationsFrom queued sendSettled rest
  | FireError error :: rest =>
      OnError error :: invocationsFrom queued sendSettled rest
  | RejectSend reason :: rest =>
      if sendSettled then invocationsFrom queued sendSettled rest
      else invocationsFrom (Some reason) true rest
  | RunReactions :: rest =>
      reaction queued ++ invocationsFrom None sendSettled rest
  end.

Definition invocations (script : list Action) : list TxEvent :=
  invocationsFrom None false script.

(** No callback is fired before the queued reactions get to run. *)
Fixpoint callbacksWait (script : list Action) : bool :=
  match script with
  | [] => true
  | RunReactions :: _ => true
  | RejectSend _ :: rest => callbacksWait rest
  | FireResult _ :: _ | FireError _ :: _ => false
  end.

Definition newline : ascii := "010"%char.
Definition carriage_return : ascii := "013"%char.

Definition rmPemDecorators (pemFile type : string) : string :=
  let pemFile := JS.replace pemFile ("-----BEGIN " +:+ type +:+ " KEY-----") "" in
  let pemFile := JS.replace pemFile ("-----END " +:+ type +:+ " KEY-----") "" in
  let pemFile := JS.remove_all newline pemFile in
  let pemFile := JS.remove_all carriage_return pemFile in
  pemFile.

Definition mock_web_server_klave_contract : string := "test_sdk_smart_contract".

Section Wrappers.
(** [import.meta.env.VITE_APP_KLAVE_CONTRACT] *)
Variable klaveContract : string.
Variable h : Handler.

Definition createSuperAdmin : Promise JSValue :=
  then_ (waitForConnection h) (fun _ =>
  then_ (request h (mkRequest klaveContract "createSuperAdmin" (JSObject [])
                      ("createSuperAdmin-" +:+ Math_random h)))
        awaitTransaction).

Definition createUser (input : JSValue) : Promise JSValue :=
  then_ (waitForConnection h) (fun _ =>
  then_ (request h (mkRequest klaveContract "createUserRequest" input
                      ("createUser-" +:+ Math_random h)))
        awaitTransaction).

Definition getUser : Promise JSValue :=
  then_ (waitForConnection h) (fun _ =>
  then_ (request h (mkRequest klaveContract "getUserContent" (JSObject [])
                      ("getUser-" +:+ Math_random h)))
        awaitTransaction).

Definition listUsers : Promise JSValue :=
  then_ (waitForConnection h) (fun _ =>
  then_ (request h (mkRequest klaveContract "listUserRequests" (JSObject [])
                      ("listUsers-" +:+ Math_random h)))
        awaitTransaction).

Definition approveUser (input : JSValue) : Promise JSValue :=
  then_ (waitForConnection h) (fun _ =>
  then_ (request h (mkRequest klaveContract "approveUserRequest" input
                      ("approveUser-" +:+ Math_random h)))
        awaitTransaction).

Definition resetIdentities (input : JSValue) : Promise JSValue :=
  then_ (waitForConnection h) (fun _ =>
  then_ (request h (mkRequest klaveContract "resetIdentities" input
                      ("resetIdentities-" +:+ Math_random h)))
        awaitTransaction).

Definition exportStorageServerPrivateKey (format : option string)
  : Promise JSValue :=
  then_ (waitForConnection h) (fun _ =>
  then_ (request h (mkRequest klaveContract "exportStorageServerPrivateKey"
                      (JSObject [("format", optional format)])
                      ("exportStorageServerPrivateKey-" +:+ Math_random h)))
        awaitTransaction).

Definition setTokenIdentity (token : option string) : Promise JSValue :=
  then_ (waitForConnection h) (fun _ =>
  then_ (request h (mkRequest klaveContract "setTokenIdentity"
                      (JSObject [("token", optional token)])
                      ("setTokenIdentity-" +:+ Math_random h)))
        awaitTransaction).

Definition createDataRoom : Promise JSValue :=
  then_ (waitForConnection h) (fun _ =>
  then_ (request h (mkRequest klaveContract "createDataRoom"
                      (JSObject [("dataRoomId", JSString "")])
                      ("createDataRoom-" +:+ Math_random h)))
        awaitTransaction).

Definition updateDataRoom (input : JSValue) : Promise JSValue :=
  then_ (waitForConnection h) (fun _ =>
  then_ (request h (mkRequest klaveContract "updateDataRoom" input
                      ("updateDataRoom-" +:+ Math_random h)))
        awaitTransaction).

Definition getPublicKeys : Promise JSValue :=
  then_ (waitForConnection h) (fun _ =>
  then_ (request h (mkRequest klaveContract "getPublicKeys" (JSObject [])
                      ("getPublicKeys-" +:+ Math_random h)))
        awaitTransaction).

Definition getFileUploadToken (getFileUploadTokenInput : JSValue)
  : Promise JSValue :=
  then_ (waitForConnection h) (fun _ =>
  then_ (request h (mkRequest klaveContract "getFileUploadToken"
                      getFileUploadTokenInput
                      ("getFileUploadToken-" +:+ Math_random h)))
        awaitTransaction).

Definition listDataRooms : Promise JSValue :=
  then_ (waitForConnection h) (fun _ =>
  then_ (request h (mkRequest klaveContract "listDataRooms" (JSObject [])
                      ("listDataRooms-" +:+ Math_random h)))
        awaitTransaction).

Definition getDataRoomContent (dataRoomId : string) : Promise JSValue :=
  then_ (waitForConnection h) (fun _ =>
  then_ (request h (mkRequest klaveContract "getDataRoomContent"
                      (JSObject [("dataRoomId", JSString dataRoomId)])
                      ("getDataRoomContent-" +:+ Math_random h)))
        awaitTransaction).

(** The key-import payload both import wrappers build. *)
Definition importKeyInput (keyName format keyData algorithm : string)
    (extractable : bool) (usages : list string) : JSValue :=
  JSObject [("keyName", JSString keyName);
            ("key", JSObject [("format", JSString format);
                              ("keyData", JSString keyData);
                              ("algorithm", JSString algorithm);
                              ("extractable", JSBool extractable);
                              ("usages", JSArray (map JSString usages))])].

Definition setStorageServerTokenIdentity (pem : string) : Promise JSValue :=
  then_ (waitForConnection h) (fun _ =>
  let pemContents := rmPemDecorators pem "EC PRIVATE" in
  let importKeyInput :=
    importKeyInput "storageServerPrivateKey" "pkcs8" pemContents "secp256r1"
                   false ["sign"] in
  then_ (request h (mkRequest mock_web_server_klave_contract "importKey"
                      importKeyInput ("importKey-" +:+ Math_random h)))
        awaitTransaction).

Definition getPublicKey (keyName : string) : Promise JSValue :=
  then_ (waitForConnection h) (fun _ =>
  let getPublicKeyInput :=
    JSObject [("keyName", JSString keyName); ("format", JSString "spki")] in
  then_ (request h (mkRequest mock_web_server_klave_contract "getPublicKey"
                      getPublicKeyInput ("getPublicKey-" +:+ Math_random h)))
        awaitTransaction).

Definition importPublicKey (pem : string) : Promise JSValue :=
  then_ (waitForConnection h) (fun _ =>
  let pemContents := rmPemDecorators pem "PUBLIC" in
  let importKeyInput :=
    importKeyInput "klaveServerPublicKey" "spki" pemContents "secp256r1"
                   true ["verify"] in
  then_ (request h (mkRequest mock_web_server_klave_contract "importKey"
                      importKeyInput ("importKey-" +:+ Math_random h)))
        awaitTransaction).

Definition sign (keyName clearText : string) : Promise JSValue :=
  then_ (waitForConnection h) (fun _ =>
  let signInput :=
    JSObject [("keyName", JSString keyName); ("clearText", JSString clearText)] in
  then_ (request h (mkRequest mock_web_server_klave_contract "sign"
                      signInput ("sign-" +:+ Math_random h)))
        awaitTransaction).

Definition verify (keyName clearText signatureB64 : string) : Promise JSValue :=
  then_ (waitForConnection h) (fun _ =>
  let verifyInput :=
    JSObject [("keyName", JSString keyName); ("clearText", JSString clearText);
              ("signatureB64", JSString signatureB64)] in
  then_ (request h (mkRequest mock_web_server_klave_contract "verify"
                      verifyInput ("verify-" +:+ Math_random h)))
        awaitTransaction).

End Wrappers.

(** The exported operations, with their arguments. *)
Inductive Operation : Type :=
| CreateSuperAdmin
| CreateUser (input : JSValue)
| GetUser
| ListUsers
| ApproveUser (input : JSValue)
| ResetIdentities (input : JSValue)
| ExportStorageServerPrivateKey (format : option string)
| SetTokenIdentity (token : option string)
| CreateDataRoom
| UpdateDataRoom (input : JSValue)
| GetPublicKeys
| GetFileUploadToken (getFileUploadTokenInput : JSValue)
| ListDataRooms
| GetDataRoomContent (dataRoomId : string)
| SetStorageServerTokenIdentity (pem : string)
| GetPublicKey (keyName : string)
| ImportPublicKey (pem : string)
| Sign (keyName clearText : string)
| Verify (keyName clearText signatureB64 : string).

Definition call (klaveContract : string) (h : Handler) (op : Operation)
  : Promise JSValue :=
  match op with
  | CreateSuperAdmin => createSuperAdmin klaveContract h
  | CreateUser input => createUser klaveContract h input
  | GetUser => getUser klaveContract h
  | ListUsers => listUsers klaveContract h
  | ApproveUser input => approveUser klaveContract h input
  | ResetIdentities input => resetIdentities klaveContract h input
  | ExportStorageServerPrivateKey format =>
      exportStorageServerPrivateKey klaveContract h format
  | SetTokenIdentity token => setTokenIdentity klaveContract h token
  | CreateDataRoom => createDataRoom klaveContract h
  | UpdateDataRoom input => updateDataRoom klaveContract h input
  | GetPublicKeys => getPublicKeys klaveContract h
  | GetFileUploadToken input => getFileUploadToken klaveContract h input
  | ListDataRooms => listDataRooms klaveContract h
  | GetDataRoomContent dataRoomId => getDataRoomContent klaveContract h dataRoomId
  | SetStorageServerTokenIdentity pem => setStorageServerTokenIdentity h pem
  | GetPublicKey keyName => getPublicKey h keyName
  | ImportPublicKey pem => importPublicKey h pem
  | Sign keyName clearText => sign h keyName clearText
  | Verify keyName clearText signatureB64 => verify h keyName clearText signatureB64
  end.

(** The request each operation hands to the handler (the argument of
    [secretariumHandler.request] in its wrapper). *)
Definition requestOf (klaveContract : string) (h : Handler) (op : Operation)
  : Request :=
  let tagged name := name +:+ "-" +:+ Math_random h in
  match op with
  | CreateSuperAdmin =>
      mkRequest klaveContract "createSuperAdmin" (JSObject []) (tagged "createSuperAdmin")
  | CreateUser input =>
      mkRequest klaveContract "createUserRequest" input (tagged "createUser")
  | GetUser =>
      mkRequest klaveContract "getUserContent" (JSObject []) (tagged "getUser")
  | ListUsers =>
      mkRequest klaveContract "listUserRequests" (JSObject []) (tagged "listUsers")
  | ApproveUser input =>
      mkRequest klaveContract "approveUserRequest" input (tagged "approveUser")
  | ResetIdentities input =>
      mkRequest klaveContract "resetIdentities" input (tagged "resetIdentities")
  | ExportStorageServerPrivateKey format =>
      mkRequest klaveContract "exportStorageServerPrivateKey"
        (JSObject [("format", optional format)])
        (tagged "exportStorageServerPrivateKey")
  | SetTokenIdentity token =>
      mkRequest klaveContract "setTokenIdentity"
        (JSObject [("token", optional token)]) (tagged "setTokenIdentity")
  | CreateDataRoom =>
      mkRequest klaveContract "createDataRoom"
        (JSObject [("dataRoomId", JSString "")]) (tagged "createDataRoom")
  | UpdateDataRoom input =>
      mkRequest klaveContract "updateDataRoom" input (tagged "updateDataRoom")
  | GetPublicKeys =>
      mkRequest klaveContract "getPublicKeys" (JSObject []) (tagged "getPublicKeys")
  | GetFileUploadToken input =>
      mkRequest klaveContract "getFileUploadToken" input (tagged "getFileUploadToken")
  | ListDataRooms =>
      mkRequest klaveContract "listDataRooms" (JSObject []) (tagged "listDataRooms")
  | GetDataRoomContent dataRoomId =>
      mkRequest klaveContract "getDataRoomContent"
        (JSObject [("dataRoomId", JSString dataRoomId)]) (tagged "getDataRoomContent")
  | SetStorageServerTokenIdentity pem =>
      mkRequest mock_web_server_klave_contract "importKey"
        (importKeyInput "storageServerPrivateKey" "pkcs8"
           (rmPemDecorators pem "EC PRIVATE") "secp256r1" false ["sign"])
        (tagged "importKey")
  | GetPublicKey keyName =>
      mkRequest mock_web_server_klave_contract "getPublicKey"
        (JSObject [("keyName", JSString keyName); ("format", JSString "spki")])
        (tagged "getPublicKey")
  | ImportPublicKey pem =>
      mkRequest mock_web_server_klave_contract "importKey"
        (importKeyInput "klaveServerPublicKey" "spki"
           (rmPemDecorators pem "PUBLIC") "secp256r1" true ["verify"])
        (tagged "importKey")
  | Sign keyName clearText =>
      mkRequest mock_web_server_klave_contract "sign"
        (JSObject [("keyName", JSString keyName); ("clearText", JSString clearText)])
        (tagged "sign")
  | Verify keyName clearText signatureB64 =>
      mkRequest mock_web_server_klave_contract "verify"
        (JSObject [("keyName", JSString keyName); ("clearText", JSString clearText);
                   ("signatureB64", JSString signatureB64)])
        (tagged "verify")
  end.

(** *** PEM documents, the inputs of the key-import wrappers *)

(** The base64 alphabet with its padding character. *)
Definition base64_char (c : ascii) : bool :=
  let n := nat_of_ascii c in
  ((65 <=? n) && (n <=? 90)) || ((97 <=? n) && (n <=? 122))
  || ((48 <=? n) && (n <=? 57)) || (n =? 43) || (n =? 47) || (n =? 61).

Fixpoint all_chars (P : ascii -> bool) (s : string) : bool :=
  match s with
  | EmptyString => true
  | String c s' => P c && all_chars P s'
  end.

Definition line_break_char (c : ascii) : bool :=
  Ascii.eqb c newline || Ascii.eqb c carriage_return.

(** The body lines, each followed by the line break. *)
Fixpoint pemLines (eol : string) (body : list string) : string :=
  match body with
  | [] => EmptyString
  | line :: body' => line +:+ eol +:+ pemLines eol body'
  end.

(** A PEM document of the given type: the BEGIN line, the base64 body
    lines and the END line, each ended by the line break [eol]. *)
Definition pemDocument (type eol : string) (body : list string) : string :=
  ("-----BEGIN " +:+ type +:+ " KEY-----") +:+ eol +:+
  pemLines eol body +:+
  ("-----END " +:+ type +:+ " KEY-----") +:+ eol.

(** The body of the document without its line structure. *)
Definition pemBody (body : list string) : string :=
  fold_right String.append EmptyString body.

Definition wellFormedPem (eol : string) (body : list string) : bool :=
  all_chars line_break_char eol && forallb (all_chars base64_char) body.

(** The two global replacements at the end of [rmPemDecorators]. *)
Definition strip_breaks (s : string) : string :=
  JS.remove_all carriage_return (JS.remove_all newline s).

End Api.

(** ** Reference implementations of the external interfaces

    The contract code above is generic in the codec, the [UserRequest]
    class and the crypto modules.  The instances below are small
    executable stand-ins, used to run the methods on concrete worlds. *)
Module Reference.

Definition dquote : ascii := "034"%char.
Definition backslash : ascii := "092"%char.

Definition special (c : ascii) : bool :=
  Ascii.eqb c dquote || Ascii.eqb c backslash.

(** Serialisation writes in front of the text that follows. *)
Fixpoint write_chars (s rest : string) : string :=
  match s with
  | EmptyString => rest
  | String c s' =>
      if special c then String backslash (String c (write_chars s' rest))
      else String c (write_chars s' rest)
  end.

Definition write_string (s rest : string) : string :=
  String dquote (write_chars s (String dquote rest)).

Fixpoint write_more (ids : list string) (rest : string) : string :=
  match ids with
  | [] => rest
  | x :: ids' => String "," (write_string x (write_more ids' rest))
  end.

Definition write_items (ids : list string) (rest : string) : string :=
  match ids with
  | [] => rest
  | x :: ids' => write_string x (write_more ids' rest)
  end.

(** The text before the items: an opening brace, the quoted field name,
    a colon and an opening bracket. *)
Definition opening : string := String "{" (write_string "userRequests" ":[").

Definition stringify (this : UserRequests.t) : string :=
  String "{" (write_string "userRequests"
    (String ":" (String "[" (write_items (UserRequests.userRequests this) "]}")))).

Fixpoint strip_prefix (p s : string) : option string :=
  match p, s with
  | EmptyString, _ => Some s
  | String a p', String b s' => if Ascii.eqb a b then strip_prefix p' s' else None
  | String _ _, EmptyString => None
  end.

Inductive Mode : Type :=
| Start      (* after the opening bracket *)
| InString   (* inside a string literal *)
| Escaped    (* after a backslash inside a literal *)
| AfterItem  (* after a closing quote *)
| AfterComma.

Definition close (acc : list string) (s : string) : option (list string) :=
  if String.eqb s "}" then Some acc else None.

Fixpoint scan (mode : Mode) (cur : string) (acc : list string) (s : string)
  : option (list string) :=
  match s with
  | EmptyString => None
  | String c s' =>
      match mode with
      | Start =>
          if Ascii.eqb c dquote then scan InString "" acc s'
          else if Ascii.eqb c "]" then close acc s'
          else None
      | AfterComma =>
          if Ascii.eqb c dquote then scan InString "" acc s' else None
      | InString =>
          if Ascii.eqb c dquote then scan AfterItem "" (acc ++ [cur]) s'
          else if Ascii.eqb c backslash then scan Escaped cur acc s'
          else scan InString (cur +:+ String c "") acc s'
      | Escaped =>
          if special c then scan InString (cur +:+ String c "") acc s' else None
      | AfterItem =>
          if Ascii.eqb c "," then scan AfterComma "" acc s'
          else if Ascii.eqb c "]" then close acc s'
          else None
      end
  end.

Definition parse_text (text : string) : option UserRequests.t :=
  match strip_prefix opening text with
  | Some rest => UserRequests.mk <$> scan Start "" [] rest
  | None => None
  end.

Definition json : JSON UserRequests.t :=
  {| JSON_stringify := stringify; JSON_parse := parse_text |}.

(** A [UserRequest] reduced to its id and its serialised row, kept in a
    child table under the id; deleting unsets the row. *)
Record StoredRequest : Type := mkStored {
  stored_id : string;
  stored_row : string
}.

Definition ChildTable : string := "UserRequestTable".

Definition Table_unset (table key : string) : Contract unit :=
  fun w => Normal (tt, mkWorld (delete (table, key) (ledger w))
                               (context w) (notifications w)).

Definition userRequestClass : UserRequestClass :=
  {| UserRequest := StoredRequest;
     UserRequest_id := stored_id;
     UserRequest_new dataRoomId role :=
       mret (mkStored (dataRoomId +:+ "/" +:+ role) (dataRoomId +:+ "/" +:+ role));
     UserRequest_load id :=
       row ← Table_get ChildTable id;
       mret (if String.eqb row "" then None else Some (mkStored id row));
     UserRequest_save u := Table_set ChildTable (stored_id u) (stored_row u);
     UserRequest_delete u := _ ← Table_unset ChildTable (stored_id u); mret u |}.

(** A key store that knows the listed key names; key material is the
    name itself. *)
Definition crypto (known : list string) : CryptoSDK :=
  {| KeyECC := string;
     CryptoKey := string;
     ArrayBuffer := string;
     Crypto_ECDSA_getKey name :=
       if existsb (String.eqb name) known then Some name else None;
     KeyECC_getPublicKey_getPem key := "PEM of " +:+ key;
     SubtleCrypto_loadKey name :=
       if existsb (String.eqb name) known then Some (mkResult (Some name))
       else None;
     SubtleCrypto_exportKey format key := Some (mkResult (Some (format +:+ ":" +:+ key)));
     String_UTF8_decode buffer := buffer |}.

Definition emptyWorld : World := mkWorld ∅ ∅ [].

(** A key generator for the store above: a nameless request yields a
    key called [fresh]; a request under one of the [refused] names
    yields nothing. *)
Definition generate (refused : list string) (fresh name : string)
  : option (Result string) :=
  if existsb (String.eqb name) refused then None
  else Some (mkResult (Some (if String.eqb name "" then fresh else name))).

Definition keygen (known refused : list string) (fresh : string)
  : @CryptoKeyGen (crypto known) :=
  @Build_CryptoKeyGen (crypto known) (generate refused fresh) (fun key => key).

(** Reading a string literal back: the characters up to the closing
    quote, and the text after it. *)
Fixpoint read_literal (escaped : bool) (cur : string) (s : string)
  : option (string * string) :=
  match s with
  | EmptyString => None
  | String c s' =>
      if escaped then
        if special c then read_literal false (cur +:+ String c "") s' else None
      else if Ascii.eqb c dquote then Some (cur, s')
      else if Ascii.eqb c backslash then read_literal true cur s'
      else read_literal false (cur +:+ String c "") s'
  end.

Definition keys_opening : string :=
  String "{" (write_string "klaveServer_private_key" (String ":" (String dquote ""))).

Definition keys_separator : string :=
  String "," (write_string "storageServer_private_key" (String ":" (String dquote ""))).

Definition keys_stringify (this : Keys.t) : string :=
  String "{" (write_string "klaveServer_private_key" (String ":"
    (write_string (Keys.klaveServer_private_key this) (String ","
      (write_string "storageServer_private_key" (String ":"
        (write_string (Keys.storageServer_private_key this) "}"))))))).

Definition keys_parse (text : string) : option Keys.t :=
  rest ← strip_prefix keys_opening text;
  '(klave, rest) ← read_literal false "" rest;
  rest ← strip_prefix keys_separator rest;
  '(storage, rest) ← read_literal false "" rest;
  if String.eqb rest "}" then Some (Keys.mk klave storage) else None.

Definition keys_json : JSON Keys.t :=
  {| JSON_stringify := keys_stringify; JSON_parse := keys_parse |}.

End Reference.

(* ================================================================== *)
(** * Part II: properties *)
(* ================================================================== *)

(** ** Array and string operations *)

Lemma indexOf_from_absent (l : list string) (value : string) (i : Z) :
  value ∉ l -> JS.indexOf_from i l value = (-1)%Z.
Proof.
  revert i. induction l as [|x l IH]; intros i Hnot; simpl; [reflexivity|].
  destruct (String.eqb_spec x value) as [->|Hne].
  - exfalso. apply Hnot. left.
  - apply IH. intros Hin. apply Hnot. now right.
Qed.

Lemma indexOf_absent (l : list string) (value : string) :
  value ∉ l -> JS.indexOf l value = (-1)%Z.
Proof. apply indexOf_from_absent. Qed.

(** [splice(-1, 1)] drops the last entry of a non-empty array. *)
Lemma splice_minus_one {A : Type} (l : list A) :
  l <> [] -> JS.splice l (-1) 1 = take (length l - 1) l.
Proof.
  intros Hne. unfold JS.splice.
  assert (Hlen : 0 < length l) by (destruct l; simpl; [congruence | lia]).
  replace (-1 <? 0)%Z with true by reflexivity.
  replace (Z.max (Z.of_nat (length l) + -1) 0) with (Z.of_nat (length l - 1)) by lia.
  replace (Z.max (Z.min 1 (Z.of_nat (length l) - Z.of_nat (length l - 1))) 0)
    with 1%Z by lia.
  rewrite Nat2Z.id.
  replace (Z.to_nat (Z.of_nat (length l - 1) + 1)) with (length l) by lia.
  rewrite drop_all. apply app_nil_r.
Qed.

Lemma take_all_but_last {A : Type} (l : list A) :
  l <> [] -> exists last, l = take (length l - 1) l ++ [last].
Proof.
  intros Hne.
  destruct (drop (length l - 1) l) as [|x [|y tl]] eqn:E.
  - apply (f_equal length) in E. rewrite length_drop in E. simpl in E.
    destruct l; simpl in *; [congruence | lia].
  - exists x. rewrite <- E. symmetry. apply take_drop.
  - apply (f_equal length) in E. rewrite length_drop in E. simpl in E. lia.
Qed.

(** [splice(-1, 1)] on the empty array leaves it empty. *)
Lemma splice_minus_one_empty {A : Type} : JS.splice (@nil A) (-1) 1 = [].
Proof. reflexivity. Qed.

(** ** The contract monad *)

Lemma emitting_emitting (ns ms : list Notification) (w : World) :
  emitting ms (emitting ns w) = emitting (ns ++ ms) w.
Proof. unfold emitting. simpl. now rewrite <- app_assoc. Qed.

Lemma bind_normal {A B : Type} (m : Contract A) (f : A -> Contract B)
    (w w' : World) (a : A) :
  m w = Normal (a, w') -> (m ≫= f) w = f a w'.
Proof. intros E. unfold mbind, Contract_bind. now rewrite E. Qed.

Lemma bind_trap {A B : Type} (m : Contract A) (f : A -> Contract B)
    (w : World) (reason : string) :
  m w = Trap reason -> (m ≫= f) w = Trap reason.
Proof. intros E. unfold mbind, Contract_bind. now rewrite E. Qed.

(** ** [UserRequests] *)

(** A non-empty collection lists as one notification: its id sequence. *)
Lemma list_nonempty (this : UserRequests.t) (w : World) :
  UserRequests.userRequests this <> [] ->
  UserRequests.list this w =
    Normal (tt, emitting [ListOutput (request_id w) (UserRequests.userRequests this)] w).
Proof.
  intros Hne. unfold UserRequests.list.
  destruct (UserRequests.userRequests this) as [|x l]; [congruence|].
  reflexivity.
Qed.

(** C1 (the code at the input where it departs from the claim): listing
    an empty collection pushes two notifications, the "no userRequest"
    message and then the empty id sequence, where the claim allows
    exactly one of the two and no id sequence in the empty case. *)
Theorem list_empty_emits_message_and_ids (w : World) :
  UserRequests.list UserRequests.new w =
    Normal (tt, emitting
      [SuccessMessage "No userRequest found in the list of userRequests";
       ListOutput (request_id w) []] w).
Proof.
  unfold UserRequests.list, UserRequests.new. simpl.
  unfold mbind, Contract_bind, success, notify, Context_get. simpl.
  now rewrite emitting_emitting.
Qed.

Section RemoveUserRequest.
Context `{UserRequestClass}.

(** Removal when the request loads: the child deletes itself, and the
    index entry found by [indexOf] on the id it then carries is
    spliced out. *)
Lemma removeUserRequest_found (this : UserRequests.t) (userId : string)
    (w w1 w2 : World) (userRequest userRequest' : UserRequest) :
  UserRequest_load userId w = Normal (Some userRequest, w1) ->
  UserRequest_delete userRequest w1 = Normal (userRequest', w2) ->
  UserRequests.removeUserRequest this userId w =
    Normal ((true,
             UserRequests.mk
               (JS.splice (UserRequests.userRequests this)
                  (JS.indexOf (UserRequests.userRequests this)
                     (UserRequest_id userRequest')) 1)), w2).
Proof.
  intros Hload Hdelete. unfold UserRequests.removeUserRequest.
  rewrite (bind_normal _ _ _ _ _ Hload).
  now rewrite (bind_normal _ _ _ _ _ Hdelete).
Qed.

(** C2: when [UserRequest.load] finds no request under the id, the
    removal returns normally with [false], logs the "not found" error,
    and leaves the collection as it was. *)
Theorem removeUserRequest_unknown_id (this : UserRequests.t) (userId : string)
    (w w1 : World) :
  UserRequest_load userId w = Normal (None, w1) ->
  UserRequests.removeUserRequest this userId w =
    Normal ((false, this),
            emitting [ErrorMessage ("UserRequest not found: " +:+ userId)] w1).
Proof.
  intros Hload. unfold UserRequests.removeUserRequest.
  now rewrite (bind_normal _ _ _ _ _ Hload).
Qed.

(** C9: on a non-empty collection, removing a request that loads (and
    deletes itself) but whose id is not in the id sequence returns
    [true] and drops the last entry of the sequence: [indexOf] answers
    [-1] and [splice(-1, 1)] deletes the final element, so the sequence
    shrinks by one.  The id looked up in the sequence is the one the
    code reads, [userRequest.id] of the loaded request. *)
Theorem removeUserRequest_absent_from_index (this : UserRequests.t)
    (userId : string) (w w1 w2 : World) (userRequest userRequest' : UserRequest) :
  UserRequest_load userId w = Normal (Some userRequest, w1) ->
  UserRequest_delete userRequest w1 = Normal (userRequest', w2) ->
  UserRequests.userRequests this <> [] ->
  UserRequest_id userRequest' ∉ UserRequests.userRequests this ->
  exists (this' : UserRequests.t) (last : string),
    UserRequests.removeUserRequest this userId w = Normal ((true, this'), w2)
    /\ JS.indexOf (UserRequests.userRequests this) (UserRequest_id userRequest') = (-1)%Z
    /\ UserRequests.userRequests this = UserRequests.userRequests this' ++ [last]
    /\ length (UserRequests.userRequests this') + 1
       = length (UserRequests.userRequests this).
Proof.
  intros Hload Hdelete Hne Habsent.
  destruct (take_all_but_last _ Hne) as [last Hlast].
  exists (UserRequests.mk
            (take (length (UserRequests.userRequests this) - 1)
               (UserRequests.userRequests this))), last.
  rewrite (removeUserRequest_found _ _ _ _ _ _ _ Hload Hdelete).
  rewrite (indexOf_absent _ _ Habsent), (splice_minus_one _ Hne). simpl.
  repeat split; [exact Hlast|].
  rewrite length_take.
  destruct (UserRequests.userRequests this); simpl in *; [congruence | lia].
Qed.

End RemoveUserRequest.

Lemma removeUserRequest_unknown_id_witness :
  let this := UserRequests.mk ["r1"; "r2"] in
  @UserRequest_load Reference.userRequestClass "nobody" Reference.emptyWorld
    = Normal (None, Reference.emptyWorld)
  /\ @UserRequests.removeUserRequest Reference.userRequestClass this "nobody"
       Reference.emptyWorld
     = Normal ((false, this),
               emitting [ErrorMessage "UserRequest not found: nobody"]
                 Reference.emptyWorld).
Proof.
  split; [reflexivity|].
  apply (@removeUserRequest_unknown_id Reference.userRequestClass). reflexivity.
Defined.

Lemma removeUserRequest_absent_from_index_witness :
  let this := UserRequests.mk ["r1"; "r2"] in
  let stored := Reference.mkStored "r9" "room/viewer" in
  let w := mkWorld {[ (Reference.ChildTable, "r9") := "room/viewer" ]} ∅ [] in
  @UserRequest_load Reference.userRequestClass "r9" w = Normal (Some stored, w)
  /\ exists this' last,
       @UserRequests.removeUserRequest Reference.userRequestClass this "r9" w
         = Normal ((true, this'), Reference.emptyWorld)
       /\ JS.indexOf ["r1"; "r2"] "r9" = (-1)%Z
       /\ ["r1"; "r2"] = UserRequests.userRequests this' ++ [last]
       /\ length (UserRequests.userRequests this') + 1 = 2.
Proof.
  intros this stored w.
  assert (Hload : @UserRequest_load Reference.userRequestClass "r9" w
                  = Normal (Some stored, w)) by (vm_compute; reflexivity).
  split; [exact Hload|].
  apply (@removeUserRequest_absent_from_index Reference.userRequestClass
           this "r9" w w Reference.emptyWorld stored stored Hload).
  - vm_compute. reflexivity.
  - discriminate.
  - apply (bool_decide_unpack _). vm_compute. exact I.
Defined.

(** ** Loading and saving the collection *)

Section LoadSave.
Context `{JSON UserRequests.t}.

Lemma load_absent (w : World) :
  UserRequests.allRow w = "" -> UserRequests.load w = Normal (UserRequests.new, w).
Proof.
  intros Hrow. unfold UserRequests.load, mbind, Contract_bind, Table_get.
  fold (UserRequests.allRow w). now rewrite Hrow.
Qed.

Lemma load_present (w : World) (this : UserRequests.t) :
  String.length (UserRequests.allRow w) <> 0 ->
  JSON_parse (UserRequests.allRow w) = Some this ->
  UserRequests.load w = Normal (this, w).
Proof.
  intros Hlen Hparse. unfold UserRequests.load, mbind, Contract_bind, Table_get.
  fold (UserRequests.allRow w).
  destruct (Nat.eqb_spec (String.length (UserRequests.allRow w)) 0) as [E|_]; [contradiction|].
  unfold parse. now rewrite Hparse.
Qed.

Lemma save_row (this : UserRequests.t) (w : World) :
  exists w', UserRequests.save this w = Normal (tt, w')
             /\ UserRequests.allRow w' = JSON_stringify this.
Proof.
  eexists. split; [reflexivity|].
  unfold UserRequests.allRow. simpl. now rewrite lookup_insert_eq.
Qed.

Context `{!JSONFaithful UserRequests.t}.

(** C5: with no "ALL" row in the table (the ledger answers the empty
    string) [load] returns a collection with an empty id sequence; and
    whatever the collection, [save] followed by [load] returns it
    unchanged. *)
Theorem load_empty_and_save_load_roundtrip :
  (forall w : World,
     UserRequests.allRow w = "" ->
     exists this, UserRequests.load w = Normal (this, w)
                  /\ UserRequests.userRequests this = [])
  /\ (forall (this : UserRequests.t) (w : World),
        exists w', UserRequests.save this w = Normal (tt, w')
                   /\ UserRequests.load w' = Normal (this, w')).
Proof.
  split.
  - intros w Hrow. exists UserRequests.new. split; [now apply load_absent | reflexivity].
  - intros this w. destruct (save_row this w) as (w' & Hsave & Hrow).
    exists w'. split; [exact Hsave|].
    apply load_present; rewrite Hrow.
    + apply JSON_stringify_nonempty.
    + apply JSON_parse_stringify.
Qed.

End LoadSave.

(** *** The reference codec is faithful *)

Lemma append_nil_l (s : string) : "" +:+ s = s.
Proof. reflexivity. Qed.

Lemma append_cons (c : ascii) (s t : string) :
  String c s +:+ t = String c (s +:+ t).
Proof. reflexivity. Qed.

Lemma append_assoc_char (cur x : string) (c : ascii) :
  (cur +:+ String c "") +:+ x = cur +:+ String c x.
Proof.
  induction cur as [|d cur IH]; [reflexivity|].
  rewrite !append_cons. now f_equal.
Qed.

Lemma append_empty_r (s : string) : s +:+ "" = s.
Proof.
  induction s as [|c s IH]; [reflexivity|].
  rewrite append_cons. now f_equal.
Qed.

Lemma special_cases (c : ascii) :
  Reference.special c = true ->
  c = Reference.dquote \/ c = Reference.backslash.
Proof.
  unfold Reference.special. intros Hs. apply orb_true_iff in Hs.
  destruct Hs as [E|E]; apply Ascii.eqb_eq in E; auto.
Qed.

Lemma special_not (c : ascii) :
  Reference.special c = false ->
  Ascii.eqb c Reference.dquote = false /\ Ascii.eqb c Reference.backslash = false.
Proof. unfold Reference.special. intros Hs. now apply orb_false_iff in Hs. Qed.

(** Reading back the characters of a literal up to its closing quote. *)
Lemma scan_write_chars (x cur rest : string) (acc : list string) :
  Reference.scan Reference.InString cur acc
    (Reference.write_chars x (String Reference.dquote rest))
  = Reference.scan Reference.AfterItem "" (acc ++ [cur +:+ x]) rest.
Proof.
  revert cur. induction x as [|c x IH]; intros cur; simpl.
  - now rewrite append_empty_r.
  - destruct (Reference.special c) eqn:Hs.
    + destruct (special_cases c Hs) as [-> | ->]; simpl;
        rewrite IH, append_assoc_char; reflexivity.
    + destruct (special_not c Hs) as [Hq Hb]. simpl. rewrite Hq, Hb.
      rewrite IH, append_assoc_char. reflexivity.
Qed.

Lemma scan_write_more (ids acc : list string) :
  Reference.scan Reference.AfterItem "" acc (Reference.write_more ids "]}")
  = Some (acc ++ ids).
Proof.
  revert acc. induction ids as [|x ids IH]; intros acc; simpl.
  - now rewrite app_nil_r.
  - unfold Reference.write_string. simpl. rewrite scan_write_chars. simpl.
    rewrite IH. now rewrite <- app_assoc.
Qed.

Lemma scan_write_items (ids : list string) :
  Reference.scan Reference.Start "" [] (Reference.write_items ids "]}") = Some ids.
Proof.
  destruct ids as [|x ids]; simpl; [reflexivity|].
  rewrite scan_write_chars. simpl. apply scan_write_more.
Qed.

Lemma reference_json_faithful : @JSONFaithful UserRequests.t Reference.json.
Proof.
  split.
  - intros [ids]. simpl. unfold Reference.parse_text, Reference.stringify. simpl.
    now rewrite scan_write_items.
  - intros x. simpl. discriminate.
Qed.

Lemma load_empty_and_save_load_roundtrip_witness :
  let this := UserRequests.mk ["r1"; "with \ and quote"] in
  (exists empty, @UserRequests.load Reference.json Reference.emptyWorld
                   = Normal (empty, Reference.emptyWorld)
                 /\ UserRequests.userRequests empty = [])
  /\ exists w', @UserRequests.save Reference.json this Reference.emptyWorld
                  = Normal (tt, w')
                /\ @UserRequests.load Reference.json w' = Normal (this, w').
Proof.
  intros this.
  destruct (@load_empty_and_save_load_roundtrip Reference.json
              reference_json_faithful) as [Hempty Hround].
  split; [apply Hempty; reflexivity | apply Hround].
Defined.

(** ** [Keys] *)

Lemma eqb_empty_false (s : string) : s <> "" -> String.eqb s "" = false.
Proof. intros Hne. now apply String.eqb_neq. Qed.

(** C4: [isSet] answers [true] exactly when both key references are
    non-empty; [clearKeys] returns [true], empties both references, and
    [isSet] on the cleared object answers [false]. *)
Theorem isSet_iff_both_set_and_false_after_clearKeys :
  (forall this : Keys.t,
     Keys.isSet this = true <->
     Keys.klaveServer_private_key this <> ""
     /\ Keys.storageServer_private_key this <> "")
  /\ (forall (this : Keys.t) (w : World),
        exists (this' : Keys.t) (w' : World),
          Keys.clearKeys this w = Normal ((true, this'), w')
          /\ Keys.klaveServer_private_key this' = ""
          /\ Keys.storageServer_private_key this' = ""
          /\ Keys.isSet this' = false).
Proof.
  split.
  - intros [k s]. unfold Keys.isSet. simpl.
    destruct (String.eqb_spec k "") as [->|Hk];
      destruct (String.eqb_spec s "") as [->|Hs]; simpl;
      split; try discriminate; try tauto; intros [? ?]; congruence.
  - intros this w. eexists _, _. split; [reflexivity|]. now simpl.
Qed.

Section KeysWithCrypto.
Context `{CryptoSDK}.

(** The four error texts differ whatever the key name is. *)
Lemma export_errors_distinct (name : string) :
  NoDup ["Storage server private key does not exist.";
         "Issue retrieving the key: " +:+ name;
         "Issue loading the key: " +:+ name;
         "Issue exporting the key: " +:+ name].
Proof.
  repeat constructor; rewrite ?elem_of_cons, ?elem_of_nil;
    intros E; repeat destruct E as [E|E]; try discriminate E; exact E.
Qed.

Lemma export_no_reference (this : Keys.t) (format : option string) (w : World) :
  Keys.storageServer_private_key this = "" ->
  Keys.exportStorageServerPrivateKey this format w =
    Normal (false,
            emitting [ErrorMessage "Storage server private key does not exist."] w).
Proof.
  intros E. unfold Keys.exportStorageServerPrivateKey. now rewrite E.
Qed.

(** C3: [exportStorageServerPrivateKey] returns [false] and emits no
    result, only its own error text, at each of its four checks: an
    empty storage-server reference, a key that cannot be retrieved, a
    key that cannot be loaded, an export that fails.  The four texts
    are pairwise distinct.  It returns [true], emitting the decoded
    export (in the requested format, raw by default), when all four
    checks pass, and only then. *)
Theorem exportStorageServerPrivateKey_outcomes
    (this : Keys.t) (format : option string) (w : World) :
  let name := Keys.storageServer_private_key this in
  let run := Keys.exportStorageServerPrivateKey this format w in
  let failed message := Normal (false, emitting [ErrorMessage message] w) in
  (name = "" ->
     run = failed "Storage server private key does not exist.")
  /\ (name <> "" -> Crypto_ECDSA_getKey name = None ->
      run = failed ("Issue retrieving the key: " +:+ name))
  /\ (name <> "" -> is_Some (Crypto_ECDSA_getKey name) ->
      SubtleCrypto_loadKey name = None
      \/ SubtleCrypto_loadKey name = Some (mkResult None) ->
      run = failed ("Issue loading the key: " +:+ name))
  /\ (forall cryptoKey,
        name <> "" -> is_Some (Crypto_ECDSA_getKey name) ->
        SubtleCrypto_loadKey name = Some (mkResult (Some cryptoKey)) ->
        SubtleCrypto_exportKey (default "raw" format) cryptoKey = None
        \/ SubtleCrypto_exportKey (default "raw" format) cryptoKey
           = Some (mkResult None) ->
        run = failed ("Issue exporting the key: " +:+ name))
  /\ (forall cryptoKey arrayBuffer,
        name <> "" -> is_Some (Crypto_ECDSA_getKey name) ->
        SubtleCrypto_loadKey name = Some (mkResult (Some cryptoKey)) ->
        SubtleCrypto_exportKey (default "raw" format) cryptoKey
          = Some (mkResult (Some arrayBuffer)) ->
        run = Normal (true,
                emitting [SuccessMessage (String_UTF8_decode arrayBuffer)] w))
  /\ NoDup ["Storage server private key does not exist.";
            "Issue retrieving the key: " +:+ name;
            "Issue loading the key: " +:+ name;
            "Issue exporting the key: " +:+ name]
  /\ (forall w', run = Normal (true, w') ->
      exists cryptoKey arrayBuffer,
        name <> ""
        /\ is_Some (Crypto_ECDSA_getKey name)
        /\ SubtleCrypto_loadKey name = Some (mkResult (Some cryptoKey))
        /\ SubtleCrypto_exportKey (default "raw" format) cryptoKey
           = Some (mkResult (Some arrayBuffer))
        /\ w' = emitting [SuccessMessage (String_UTF8_decode arrayBuffer)] w).
Proof.
  intros name run failed. subst run failed.
  unfold Keys.exportStorageServerPrivateKey. fold name.
  split; [intros ->; reflexivity|].
  destruct (String.eqb_spec name "") as [E|Hname].
  { repeat split; try (intros; congruence); try apply export_errors_distinct.
    intros w' Hrun. discriminate Hrun. }
  destruct (Crypto_ECDSA_getKey name) as [key|] eqn:Hget.
  2:{ repeat split; try (intros; congruence); try apply export_errors_distinct.
      - intros _ [? ?]. congruence.
      - intros ? _ [? ?]. congruence.
      - intros ? ? _ [? ?]. congruence.
      - intros w' Hrun. discriminate Hrun. }
  destruct (SubtleCrypto_loadKey name) as [[[cryptoKey|]]|] eqn:Hload.
  2,3: (repeat split; try (intros; congruence); try apply export_errors_distinct;
        intros w' Hrun; discriminate Hrun).
  destruct (SubtleCrypto_exportKey (default "raw" format) cryptoKey)
    as [[[arrayBuffer|]]|] eqn:Hexport.
  2,3: (repeat split; try apply export_errors_distinct;
        try (intros; intuition congruence);
        try (intros ? ? ? [= <-]; intros; rewrite Hexport; reflexivity);
        try (intros ? ? ? ? [= <-]; intros; congruence);
        intros w' Hrun; discriminate Hrun).
  repeat split; try apply export_errors_distinct.
  - intros; congruence.
  - intros _ _ [?|?]; congruence.
  - intros ? _ _ [= <-] [?|?]; congruence.
  - intros ? ? _ _ [= <-] E. rewrite Hexport in E. injection E as <-. reflexivity.
  - intros w' [= <-]. exists cryptoKey, arrayBuffer.
    repeat split; [exact Hname | now eexists | exact Hexport].
Qed.

(** C10: when exactly one of the two references is set and the key
    store has no key under the empty name, [list] logs a retrieval
    error and stops: no structured two-key result is emitted.  And
    whenever [list] emits the "no keys" message, both references are
    empty. *)
Theorem list_with_one_reference_unset (this : Keys.t) (w : World) :
  let klave := Keys.klaveServer_private_key this in
  let storage := Keys.storageServer_private_key this in
  ((klave = "" /\ storage <> "") \/ (klave <> "" /\ storage = "") ->
   Crypto_ECDSA_getKey "" = None ->
   exists name,
     Keys.list this w =
       Normal (tt, emitting [ErrorMessage ("Issue retrieving the key: " +:+ name)] w))
  /\ (forall ns,
        Keys.list this w = Normal (tt, emitting ns w) ->
        SuccessMessage "No keys have been set yet." ∈ ns ->
        klave = "" /\ storage = "").
Proof.
  intros klave storage. unfold Keys.list. fold klave storage. split.
  - intros [[-> Hs] | [Hk ->]] Hempty.
    + simpl. rewrite (eqb_empty_false _ Hs), Hempty. simpl. now exists "".
    + rewrite (eqb_empty_false _ Hk). simpl.
      destruct (Crypto_ECDSA_getKey klave) as [key|].
      * rewrite Hempty. now exists "".
      * now exists klave.
  - intros ns Hrun Hin.
    destruct (String.eqb_spec klave "") as [Hk|Hk];
      destruct (String.eqb_spec storage "") as [Hs|Hs]; simpl in Hrun;
      [ now split | exfalso .. ].
    all: destruct (Crypto_ECDSA_getKey klave) as [key1|];
      [destruct (Crypto_ECDSA_getKey storage) as [key2|]|];
      unfold error, notify, mbind, Contract_bind, Context_get, emitting in Hrun;
      simpl in Hrun; injection Hrun as Hrun;
      apply app_inv_head in Hrun; subst ns;
      apply list_elem_of_singleton in Hin; discriminate Hin.
Qed.

End KeysWithCrypto.

Lemma exportStorageServerPrivateKey_outcomes_witness :
  let sdk := Reference.crypto ["storage-key"] in
  @Keys.exportStorageServerPrivateKey sdk Keys.new None Reference.emptyWorld
    = Normal (false,
              emitting [ErrorMessage "Storage server private key does not exist."]
                Reference.emptyWorld)
  /\ @Keys.exportStorageServerPrivateKey sdk (Keys.mk "" "lost-key") None
       Reference.emptyWorld
     = Normal (false,
               emitting [ErrorMessage "Issue retrieving the key: lost-key"]
                 Reference.emptyWorld)
  /\ @Keys.exportStorageServerPrivateKey sdk (Keys.mk "" "storage-key") (Some "pkcs8")
       Reference.emptyWorld
     = Normal (true,
               emitting [SuccessMessage "pkcs8:storage-key"] Reference.emptyWorld).
Proof.
  intros sdk. split; [|split].
  - apply (@exportStorageServerPrivateKey_outcomes sdk Keys.new None
             Reference.emptyWorld). reflexivity.
  - apply (@exportStorageServerPrivateKey_outcomes sdk (Keys.mk "" "lost-key") None
             Reference.emptyWorld); [discriminate | reflexivity].
  - apply (@exportStorageServerPrivateKey_outcomes sdk (Keys.mk "" "storage-key")
             (Some "pkcs8") Reference.emptyWorld) with (cryptoKey := "storage-key");
      [discriminate | now eexists | reflexivity | reflexivity].
Defined.

Lemma list_with_one_reference_unset_witness :
  let sdk := Reference.crypto ["klave-key"] in
  let this := Keys.mk "klave-key" "" in
  @Crypto_ECDSA_getKey sdk "" = None
  /\ exists name,
       @Keys.list sdk this Reference.emptyWorld =
         Normal (tt, emitting [ErrorMessage ("Issue retrieving the key: " +:+ name)]
                       Reference.emptyWorld).
Proof.
  intros sdk this. split; [reflexivity|].
  apply (@list_with_one_reference_unset sdk this Reference.emptyWorld).
  - right. split; [discriminate | reflexivity].
  - reflexivity.
Defined.

(** ** The client request wrappers *)

Section Client.
Variable klaveContract : string.
Variable h : Api.Handler.

(** Every wrapper has the same shape: wait for the connection, ask the
    handler for the operation's request, await the transaction. *)
Lemma call_shape (op : Api.Operation) :
  Api.call klaveContract h op =
    Api.then_ (Api.waitForConnection h) (fun _ =>
    Api.then_ (Api.request h (Api.requestOf klaveContract h op))
              Api.awaitTransaction).
Proof. destruct op; reflexivity. Qed.

(** The wait resolves as soon as one poll finds the connection up. *)
Lemma loopCondition_ready (polls : list bool) :
  true ∈ polls -> Api.loopCondition polls = Api.Fulfilled tt.
Proof.
  induction polls as [|[] polls IH]; intros Hin.
  - now apply elem_of_nil in Hin.
  - reflexivity.
  - simpl. apply IH. apply elem_of_cons in Hin as [Hin|Hin]; [discriminate | exact Hin].
Qed.

Lemma loopCondition_waiting (polls : list bool) :
  true ∉ polls -> Api.loopCondition polls = Api.Pending.
Proof.
  induction polls as [|[] polls IH]; intros Hnot; simpl.
  - reflexivity.
  - exfalso. apply Hnot. left.
  - apply IH. intros Hin. apply Hnot. now right.
Qed.

(** A settled promise ignores every later callback. *)
Lemma deliver_settled (evs : list Api.TxEvent) (p : Api.Promise Api.JSValue) :
  p <> Api.Pending -> fold_left Api.deliver evs p = p.
Proof.
  revert p. induction evs as [|ev evs IH]; intros p Hp; simpl; [reflexivity|].
  assert (E : Api.deliver p ev = p) by (destruct p, ev; simpl; congruence).
  rewrite E. now apply IH.
Qed.

(** The first callback decides. *)
Lemma awaitTransaction_first (tx : Api.Transaction) (ev : Api.TxEvent)
    (later : list Api.TxEvent) :
  Api.events tx = ev :: later ->
  Api.awaitTransaction tx = Api.deliver Api.Pending ev.
Proof.
  intros E. unfold Api.awaitTransaction. rewrite E. simpl.
  apply deliver_settled. destruct ev; discriminate.
Qed.

(** A promise of a transaction is fulfilled only with a payload that a
    result callback delivered. *)
Lemma deliver_fulfilled (evs : list Api.TxEvent) (p : Api.Promise Api.JSValue)
    (value : Api.JSValue) :
  fold_left Api.deliver evs p = Api.Fulfilled value ->
  p = Api.Fulfilled value \/ Api.OnResult value ∈ evs.
Proof.
  revert p. induction evs as [|ev evs IH]; intros p Hp; simpl in Hp; [now left|].
  destruct (IH _ Hp) as [E|Hin]; [|right; now right].
  destruct p; simpl in E.
  - destruct ev; simpl in E; try discriminate E.
    injection E as ->. right. left.
  - destruct ev; simpl in E; now left.
  - destruct ev; discriminate E.
Qed.

Lemma call_when_sent (op : Api.Operation) (tx : Api.Transaction) :
  true ∈ Api.isConnected h ->
  Api.request h (Api.requestOf klaveContract h op) = Api.Fulfilled tx ->
  Api.call klaveContract h op = Api.awaitTransaction tx.
Proof.
  intros Hready Hrequest. rewrite call_shape. unfold Api.waitForConnection.
  rewrite (loopCondition_ready _ Hready). simpl. now rewrite Hrequest.
Qed.

(** C6 (amended): for every operation of the module, once the
    connection is up, if the first callback the transaction of the
    operation's request fires is the result callback with a payload,
    the promise the operation returned is fulfilled with exactly that
    payload, and nothing the transaction does afterwards changes it.
    Moreover the promise is never fulfilled with anything but a payload
    the transaction delivered to the result callback. *)
Theorem call_resolves_with_result_payload (op : Api.Operation)
    (tx : Api.Transaction) (result : Api.JSValue) (later : list Api.TxEvent) :
  true ∈ Api.isConnected h ->
  Api.request h (Api.requestOf klaveContract h op) = Api.Fulfilled tx ->
  Api.events tx = Api.OnResult result :: later ->
  Api.call klaveContract h op = Api.Fulfilled result
  /\ (forall value, Api.call klaveContract h op = Api.Fulfilled value ->
                    Api.OnResult value ∈ Api.events tx).
Proof.
  intros Hready Hrequest Hevents.
  rewrite (call_when_sent _ _ Hready Hrequest).
  split.
  - now rewrite (awaitTransaction_first _ _ _ Hevents).
  - intros value Hvalue. unfold Api.awaitTransaction in Hvalue.
    destruct (deliver_fulfilled _ _ _ Hvalue) as [E|Hin]; [discriminate E | exact Hin].
Qed.

(** Once [send()] has rejected, its catch handler is the first closure
    to run unless a callback is fired before the reactions run. *)
Lemma invocationsFrom_reaction_first (reason : Api.JSValue)
    (later : list Api.Action) :
  Api.callbacksWait later = true ->
  exists after,
    Api.invocationsFrom (Some reason) true later = Api.SendCatch reason :: after.
Proof.
  induction later as [|[result|error|reason'|] later IH]; simpl; intros Hwait;
    try discriminate Hwait.
  - now eexists.
  - now apply IH.
  - now eexists.
Qed.

(** C7 (amended): for every operation of the module, once the
    transaction of the operation's request exists: if the first thing
    the transaction does is fire the error callback, the returned
    promise is rejected with the error it was given; if the first thing
    is that [send()] rejects, and no result or error callback is fired
    before the handler given to [catch] gets to run (a microtask
    later), that same promise is rejected with the reason of the send
    failure.  What comes after the promise has settled does not change
    it. *)
Theorem call_rejects_on_error_callback_or_send_failure (op : Api.Operation)
    (tx : Api.Transaction) (script : list Api.Action) :
  true ∈ Api.isConnected h ->
  Api.request h (Api.requestOf klaveContract h op) = Api.Fulfilled tx ->
  Api.events tx = Api.invocations script ->
  (forall error later,
     script = Api.FireError error :: later ->
     Api.call klaveContract h op = Api.Rejected error)
  /\ (forall reason later,
        script = Api.RejectSend reason :: later ->
        Api.callbacksWait later = true ->
        Api.call klaveContract h op = Api.Rejected reason).
Proof.
  intros Hready Hrequest Hevents.
  rewrite (call_when_sent _ _ Hready Hrequest).
  split.
  - intros error later ->.
    now rewrite (awaitTransaction_first _ _ _ Hevents).
  - intros reason later -> Hwait.
    destruct (invocationsFrom_reaction_first reason later Hwait) as (after & Hafter).
    unfold Api.invocations in Hevents. simpl in Hevents. rewrite Hafter in Hevents.
    now rewrite (awaitTransaction_first _ _ _ Hevents).
Qed.

End Client.

(** *** Stripping the PEM decorations *)

Lemma append_assoc (a b c : string) : (a +:+ b) +:+ c = a +:+ (b +:+ c).
Proof.
  induction a as [|x a IH]; [reflexivity|].
  rewrite !append_cons. now f_equal.
Qed.

Lemma prefix_append (p s : string) : String.prefix p (p +:+ s) = true.
Proof.
  induction p as [|a p IH]; [now destruct s|].
  rewrite append_cons. simpl. now destruct (ascii_dec a a).
Qed.

Lemma drop_chars_append (p s : string) :
  JS.drop_chars (String.length p) (p +:+ s) = s.
Proof.
  induction p as [|a p IH]; [now destruct s|].
  rewrite append_cons. simpl. exact IH.
Qed.

Lemma replace_unfold (s pat rep : string) :
  JS.replace s pat rep =
    if String.prefix pat s then rep +:+ JS.drop_chars (String.length pat) s
    else match s with
         | EmptyString => EmptyString
         | String c s' => String c (JS.replace s' pat rep)
         end.
Proof. destruct s; reflexivity. Qed.

(** A pattern found at the very start is cut out. *)
Lemma replace_at_start (pat s : string) : JS.replace (pat +:+ s) pat "" = s.
Proof.
  rewrite replace_unfold, prefix_append, drop_chars_append. apply append_nil_l.
Qed.

(** The search walks over characters that cannot start the pattern. *)
Lemma replace_skip (pre s pat' rep : string) (a : ascii) :
  Api.all_chars (fun c => negb (Ascii.eqb c a)) pre = true ->
  JS.replace (pre +:+ s) (String a pat') rep
  = pre +:+ JS.replace s (String a pat') rep.
Proof.
  induction pre as [|c pre IH]; intros Hpre; [reflexivity|].
  simpl in Hpre. apply andb_true_iff in Hpre as [Hc Hpre].
  rewrite !append_cons, replace_unfold. simpl.
  destruct (ascii_dec a c) as [->|_].
  - rewrite Ascii.eqb_refl in Hc. discriminate Hc.
  - now rewrite IH.
Qed.

Lemma remove_all_append (c : ascii) (s t : string) :
  JS.remove_all c (s +:+ t) = JS.remove_all c s +:+ JS.remove_all c t.
Proof.
  induction s as [|d s IH]; [reflexivity|].
  rewrite append_cons. simpl. destruct (Ascii.eqb d c).
  - exact IH.
  - rewrite append_cons. now f_equal.
Qed.

Lemma strip_breaks_append (s t : string) :
  Api.strip_breaks (s +:+ t) = Api.strip_breaks s +:+ Api.strip_breaks t.
Proof. unfold Api.strip_breaks. now rewrite !remove_all_append. Qed.

Lemma strip_breaks_eol (eol : string) :
  Api.all_chars Api.line_break_char eol = true -> Api.strip_breaks eol = "".
Proof.
  unfold Api.strip_breaks.
  induction eol as [|c eol IH]; intros Heol; [reflexivity|].
  simpl in Heol. apply andb_true_iff in Heol as [Hc Heol].
  unfold Api.line_break_char in Hc. simpl.
  destruct (Ascii.eqb c Api.newline) eqn:Hn; [now apply IH|].
  simpl in Hc. simpl. rewrite Hc. now apply IH.
Qed.

Lemma base64_char_plain (c : ascii) :
  Api.base64_char c = true ->
  Ascii.eqb c Api.newline = false /\ Ascii.eqb c Api.carriage_return = false
  /\ Ascii.eqb c "-" = false.
Proof.
  intros Hc. repeat split; apply Ascii.eqb_neq; intros ->; discriminate Hc.
Qed.

Lemma strip_breaks_line (line : string) :
  Api.all_chars Api.base64_char line = true -> Api.strip_breaks line = line.
Proof.
  unfold Api.strip_breaks.
  induction line as [|c line IH]; intros Hline; [reflexivity|].
  simpl in Hline. apply andb_true_iff in Hline as [Hc Hline].
  destruct (base64_char_plain c Hc) as (Hn & Hr & _).
  simpl. rewrite Hn. simpl. rewrite Hr. f_equal. now apply IH.
Qed.

Lemma no_dash_append (s t : string) :
  Api.all_chars (fun c => negb (Ascii.eqb c "-")) s = true ->
  Api.all_chars (fun c => negb (Ascii.eqb c "-")) t = true ->
  Api.all_chars (fun c => negb (Ascii.eqb c "-")) (s +:+ t) = true.
Proof.
  intros Hs Ht. induction s as [|c s IH]; [exact Ht|].
  simpl in Hs. apply andb_true_iff in Hs as [Hc Hs].
  rewrite append_cons. simpl. rewrite Hc. now apply IH.
Qed.

Lemma no_dash_eol (eol : string) :
  Api.all_chars Api.line_break_char eol = true ->
  Api.all_chars (fun c => negb (Ascii.eqb c "-")) eol = true.
Proof.
  induction eol as [|c eol IH]; intros Heol; [reflexivity|].
  simpl in Heol. apply andb_true_iff in Heol as [Hc Heol].
  simpl. rewrite (IH Heol), andb_true_r.
  unfold Api.line_break_char in Hc. apply orb_true_iff in Hc as [Hc|Hc];
    apply Ascii.eqb_eq in Hc; now subst c.
Qed.

Lemma no_dash_line (line : string) :
  Api.all_chars Api.base64_char line = true ->
  Api.all_chars (fun c => negb (Ascii.eqb c "-")) line = true.
Proof.
  induction line as [|c line IH]; intros Hline; [reflexivity|].
  simpl in Hline. apply andb_true_iff in Hline as [Hc Hline].
  destruct (base64_char_plain c Hc) as (_ & _ & Hd).
  simpl. now rewrite Hd, (IH Hline).
Qed.

Lemma pemLines_no_dash (eol : string) (body : list string) :
  Api.wellFormedPem eol body = true ->
  Api.all_chars (fun c => negb (Ascii.eqb c "-")) (Api.pemLines eol body) = true.
Proof.
  unfold Api.wellFormedPem. intros Hwf. apply andb_true_iff in Hwf as [Heol Hbody].
  induction body as [|line body IH]; [reflexivity|].
  simpl in Hbody. apply andb_true_iff in Hbody as [Hline Hbody]. simpl.
  apply no_dash_append; [now apply no_dash_line|].
  apply no_dash_append; [now apply no_dash_eol | now apply IH].
Qed.

Lemma pemLines_strip_breaks (eol : string) (body : list string) :
  Api.wellFormedPem eol body = true ->
  Api.strip_breaks (Api.pemLines eol body) = Api.pemBody body.
Proof.
  unfold Api.wellFormedPem. intros Hwf. apply andb_true_iff in Hwf as [Heol Hbody].
  induction body as [|line body IH]; [reflexivity|].
  simpl in Hbody. apply andb_true_iff in Hbody as [Hline Hbody]. simpl.
  rewrite !strip_breaks_append, (strip_breaks_line _ Hline),
    (strip_breaks_eol _ Heol), append_nil_l.
  f_equal. now apply IH.
Qed.



(** *** Concrete runs of the wrappers *)


Lemma call_resolves_with_result_payload_witness :
  let tx := Api.mkTransaction
              [Api.OnResult (Api.JSString "first"); Api.OnResult (Api.JSString "second");
               Api.OnError (Api.JSString "late")] in
  let h := Api.mkHandler [false; false; true] "0.5" (fun _ => Api.Fulfilled tx) in
  Api.call "contract" h Api.ListUsers = Api.Fulfilled (Api.JSString "first").
Proof.
  intros tx h.
  apply (call_resolves_with_result_payload "contract" h Api.ListUsers tx
           (Api.JSString "first")
           [Api.OnResult (Api.JSString "second"); Api.OnError (Api.JSString "late")]).
  - apply (bool_decide_unpack _). vm_compute. exact I.
  - reflexivity.
  - reflexivity.
Defined.

Lemma call_rejects_on_error_callback_or_send_failure_witness :
  let failure := Api.JSString "denied" in
  let script1 := [Api.FireError failure; Api.RejectSend failure] in
  let script2 := [Api.RejectSend failure; Api.RunReactions;
                  Api.FireResult (Api.JSString "late")] in
  let h1 := Api.mkHandler [true] "0.5"
              (fun _ => Api.Fulfilled (Api.mkTransaction (Api.invocations script1))) in
  let h2 := Api.mkHandler [true] "0.5"
              (fun _ => Api.Fulfilled (Api.mkTransaction (Api.invocations script2))) in
  Api.call "contract" h1 Api.CreateSuperAdmin = Api.Rejected failure
  /\ Api.call "contract" h2 Api.CreateSuperAdmin = Api.Rejected failure.
Proof.
  intros failure script1 script2 h1 h2. split.
  - refine (proj1 (call_rejects_on_error_callback_or_send_failure "contract" h1
                     Api.CreateSuperAdmin
                     (Api.mkTransaction (Api.invocations script1)) script1 _ _ _)
                  failure [Api.RejectSend failure] _);
      [apply (bool_decide_unpack _); vm_compute; exact I
      | reflexivity | reflexivity | reflexivity].
  - refine (proj2 (call_rejects_on_error_callback_or_send_failure "contract" h2
                     Api.CreateSuperAdmin
                     (Api.mkTransaction (Api.invocations script2)) script2 _ _ _)
                  failure [Api.RunReactions; Api.FireResult (Api.JSString "late")] _ _);
      [apply (bool_decide_unpack _); vm_compute; exact I
      | reflexivity | reflexivity | reflexivity | reflexivity].
Defined.

(** C6 as the spec words it does not hold: a result callback that fires
    after the promise has settled leaves it as it is.  Here the
    transaction reports an error and then a result; the result callback
    fires with a payload, yet the promise stays rejected.  Likewise a
    second result does not replace the first. *)
Lemma result_callback_after_settlement_is_ignored :
  let late := Api.JSString "late result" in
  let tx := Api.mkTransaction [Api.OnError (Api.JSString "denied"); Api.OnResult late] in
  let h := Api.mkHandler [true] "0.5" (fun _ => Api.Fulfilled tx) in
  let tx' := Api.mkTransaction [Api.OnResult (Api.JSString "message"); Api.OnResult late] in
  let h' := Api.mkHandler [true] "0.5" (fun _ => Api.Fulfilled tx') in
  (true ∈ Api.isConnected h
   /\ Api.request h (Api.requestOf "contract" h Api.ListUsers) = Api.Fulfilled tx
   /\ Api.OnResult late ∈ Api.events tx
   /\ Api.call "contract" h Api.ListUsers = Api.Rejected (Api.JSString "denied")
   /\ Api.call "contract" h Api.ListUsers <> Api.Fulfilled late)
  /\ (Api.OnResult late ∈ Api.events tx'
      /\ Api.call "contract" h' Api.ListUsers = Api.Fulfilled (Api.JSString "message")
      /\ Api.call "contract" h' Api.ListUsers <> Api.Fulfilled late).
Proof.
  intros late tx h tx' h'. repeat split; try reflexivity; try discriminate.
  - left.
  - right. left.
  - right. left.
Qed.

(** C7 as the spec words it does not hold either.  In the first run
    the error callback fires after a result: the promise stays
    fulfilled.  In the second run [send()] rejects and, before the
    handler given to [catch] has run, the result callback fires: the
    promise is fulfilled with the result, not rejected with the send
    failure. *)
Lemma error_or_send_failure_can_come_too_late :
  let failure := Api.JSString "denied" in
  let sendFailure := Api.JSString "socket closed" in
  let answer := Api.JSBool true in
  let script := [Api.FireResult answer; Api.FireError failure] in
  let tx := Api.mkTransaction (Api.invocations script) in
  let h := Api.mkHandler [true] "0.5" (fun _ => Api.Fulfilled tx) in
  let script' := [Api.RejectSend sendFailure; Api.FireResult answer] in
  let tx' := Api.mkTransaction (Api.invocations script') in
  let h' := Api.mkHandler [true] "0.5" (fun _ => Api.Fulfilled tx') in
  (true ∈ Api.isConnected h
   /\ Api.request h (Api.requestOf "contract" h Api.CreateSuperAdmin) = Api.Fulfilled tx
   /\ Api.FireError failure ∈ script
   /\ Api.call "contract" h Api.CreateSuperAdmin = Api.Fulfilled answer
   /\ Api.call "contract" h Api.CreateSuperAdmin <> Api.Rejected failure)
  /\ (true ∈ Api.isConnected h'
      /\ Api.request h' (Api.requestOf "contract" h' Api.CreateSuperAdmin)
         = Api.Fulfilled tx'
      /\ Api.RejectSend sendFailure ∈ script'
      /\ Api.events tx' = [Api.OnResult answer; Api.SendCatch sendFailure]
      /\ Api.call "contract" h' Api.CreateSuperAdmin = Api.Fulfilled answer
      /\ Api.call "contract" h' Api.CreateSuperAdmin <> Api.Rejected sendFailure).
Proof.
  intros failure sendFailure answer script tx h script' tx' h'.
  repeat split; try reflexivity; try discriminate.
  - left.
  - right. left.
  - left.
  - left.
Qed.


(* ================================================================== *)
(** * Part III: further properties of the three files *)
(* ================================================================== *)

(** ** Removing an indexed request *)

Lemma indexOf_from_first (pre post : list string) (value : string) (i : Z) :
  value ∉ pre ->
  JS.indexOf_from i (pre ++ value :: post) value = (i + Z.of_nat (length pre))%Z.
Proof.
  revert i. induction pre as [|x pre IH]; intros i Hpre; simpl.
  - rewrite String.eqb_refl. lia.
  - destruct (String.eqb_spec x value) as [->|_].
    + exfalso. apply Hpre. left.
    + rewrite IH by (intros Hin; apply Hpre; now right). lia.
Qed.

Lemma first_occurrence (l : list string) (value : string) :
  value ∈ l -> exists pre post, l = pre ++ value :: post /\ value ∉ pre.
Proof.
  induction l as [|x l IH]; intros Hin; [now apply elem_of_nil in Hin|].
  destruct (String.eqb_spec x value) as [->|Hne].
  - exists [], l. split; [reflexivity | apply not_elem_of_nil].
  - apply elem_of_cons in Hin as [->|Hin]; [congruence|].
    destruct (IH Hin) as (pre & post & -> & Hpre).
    exists (x :: pre), post. split; [reflexivity|].
    intros Hx. apply elem_of_cons in Hx as [->|Hx]; [congruence | now apply Hpre].
Qed.

(** [splice(i, 1)] at a valid index removes exactly the entry there. *)
Lemma splice_at {A : Type} (pre post : list A) (x : A) :
  JS.splice (pre ++ x :: post) (Z.of_nat (length pre)) 1 = pre ++ post.
Proof.
  unfold JS.splice. rewrite length_app. simpl.
  destruct (Z.ltb_spec (Z.of_nat (length pre)) 0) as [Hneg|_]; [lia|].
  replace (Z.min (Z.of_nat (length pre)) (Z.of_nat (length pre + S (length post))))
    with (Z.of_nat (length pre)) by lia.
  replace (Z.max (Z.min 1 (Z.of_nat (length pre + S (length post))
                           - Z.of_nat (length pre))) 0) with 1%Z by lia.
  rewrite Nat2Z.id.
  replace (Z.to_nat (Z.of_nat (length pre) + 1)) with (length (pre ++ [x])).
  2:{ rewrite length_app. simpl. lia. }
  rewrite take_app_length.
  replace (pre ++ x :: post) with ((pre ++ [x]) ++ post) by now rewrite <- app_assoc.
  now rewrite drop_app_length.
Qed.

Lemma splice_indexOf_first (pre post : list string) (value : string) :
  value ∉ pre ->
  JS.splice (pre ++ value :: post) (JS.indexOf (pre ++ value :: post) value) 1
  = pre ++ post.
Proof.
  intros Hpre. unfold JS.indexOf. rewrite (indexOf_from_first _ _ _ _ Hpre). simpl.
  apply splice_at.
Qed.

Section RemoveIndexed.
Context `{UserRequestClass}.

(** X1: removing a request whose id is in the index cuts out the first
    entry equal to that id and nothing else: the entries before and
    after it stay, in order, and the call returns [true]. *)
Theorem removeUserRequest_cuts_first_occurrence (pre post : list string)
    (userId : string) (w w1 w2 : World) (userRequest userRequest' : UserRequest) :
  UserRequest_load userId w = Normal (Some userRequest, w1) ->
  UserRequest_delete userRequest w1 = Normal (userRequest', w2) ->
  UserRequest_id userRequest' ∉ pre ->
  UserRequests.removeUserRequest
    (UserRequests.mk (pre ++ UserRequest_id userRequest' :: post)) userId w
  = Normal ((true, UserRequests.mk (pre ++ post)), w2).
Proof.
  intros Hload Hdelete Hpre.
  rewrite (removeUserRequest_found _ _ _ _ _ _ _ Hload Hdelete). simpl.
  now rewrite (splice_indexOf_first _ _ _ Hpre).
Qed.

(** X2: on an index without repeated ids, removing an indexed request
    leaves an index that no longer holds the id, still has no repeats,
    and holds every other id it held before. *)
Theorem removeUserRequest_forgets_the_id (this : UserRequests.t)
    (userId : string) (w w1 w2 : World) (userRequest userRequest' : UserRequest) :
  UserRequest_load userId w = Normal (Some userRequest, w1) ->
  UserRequest_delete userRequest w1 = Normal (userRequest', w2) ->
  NoDup (UserRequests.userRequests this) ->
  UserRequest_id userRequest' ∈ UserRequests.userRequests this ->
  exists this',
    UserRequests.removeUserRequest this userId w = Normal ((true, this'), w2)
    /\ (UserRequest_id userRequest' ∉ UserRequests.userRequests this')
    /\ NoDup (UserRequests.userRequests this')
    /\ (forall other, other <> UserRequest_id userRequest' ->
          (other ∈ UserRequests.userRequests this'
           <-> other ∈ UserRequests.userRequests this)).
Proof.
  intros Hload Hdelete Hnodup Hin. destruct this as [ids]. simpl in *.
  destruct (first_occurrence _ _ Hin) as (pre & post & -> & Hpre).
  exists (UserRequests.mk (pre ++ post)).
  rewrite (removeUserRequest_found _ _ _ _ _ _ _ Hload Hdelete). simpl.
  rewrite (splice_indexOf_first _ _ _ Hpre).
  apply NoDup_app in Hnodup as (Hnd_pre & Hdisjoint & Hnd_post).
  apply NoDup_cons in Hnd_post as [Hpost Hnd_post].
  repeat split.
  - rewrite elem_of_app. tauto.
  - apply NoDup_app. repeat split; [exact Hnd_pre | | exact Hnd_post].
    intros x Hx Hx'. apply (Hdisjoint x Hx). now right.
  - rewrite !elem_of_app, elem_of_cons. tauto.
  - rewrite !elem_of_app, elem_of_cons. intros [?|[?|?]]; [tauto | congruence | tauto].
Qed.

(** X3: whether or not the id is indexed, a removal that goes through
    takes exactly one entry out of a non-empty index, and leaves an
    empty index empty. *)
Theorem removeUserRequest_takes_one_entry (this : UserRequests.t)
    (userId : string) (w w1 w2 : World) (userRequest userRequest' : UserRequest) :
  UserRequest_load userId w = Normal (Some userRequest, w1) ->
  UserRequest_delete userRequest w1 = Normal (userRequest', w2) ->
  exists this',
    UserRequests.removeUserRequest this userId w = Normal ((true, this'), w2)
    /\ length (UserRequests.userRequests this')
       = length (UserRequests.userRequests this) - 1.
Proof.
  intros Hload Hdelete. destruct this as [ids]. simpl.
  rewrite (removeUserRequest_found _ _ _ _ _ _ _ Hload Hdelete). simpl.
  eexists. split; [reflexivity|]. simpl.
  destruct (decide (UserRequest_id userRequest' ∈ ids)) as [Hin|Hout].
  - destruct (first_occurrence _ _ Hin) as (pre & post & -> & Hpre).
    rewrite (splice_indexOf_first _ _ _ Hpre), !length_app. simpl. lia.
  - rewrite (indexOf_absent _ _ Hout).
    destruct ids as [|x ids]; [reflexivity|].
    rewrite splice_minus_one by discriminate.
    rewrite length_take. simpl. lia.
Qed.

End RemoveIndexed.

(** ** Adding requests, and adding then removing *)

Section AddUserRequest.
Context `{UserRequestClass}.

Lemma addUserRequest_run (this : UserRequests.t) (dataRoomId role : string)
    (w w1 w2 : World) (userRequest : UserRequest) :
  UserRequest_new dataRoomId role w = Normal (userRequest, w1) ->
  UserRequest_save userRequest w1 = Normal (tt, w2) ->
  UserRequests.addUserRequest this dataRoomId role w =
    Normal ((true,
             UserRequests.mk
               (UserRequests.userRequests this ++ [UserRequest_id userRequest])),
            emitting [SuccessMessage ("UserRequest added successfully: "
                                      +:+ UserRequest_id userRequest)] w2).
Proof.
  intros Hnew Hsave. unfold UserRequests.addUserRequest.
  rewrite (bind_normal _ _ _ _ _ Hnew).
  now rewrite (bind_normal _ _ _ _ _ Hsave).
Qed.

(** X4: adding a request (created and saved by the child class) returns
    [true], reports the new id in a success message, and puts that id
    at the end of the index: the ids already there keep their places
    and the index grows by one. *)
Theorem addUserRequest_appends_the_new_id (this : UserRequests.t)
    (dataRoomId role : string) (w w1 w2 : World) (userRequest : UserRequest) :
  UserRequest_new dataRoomId role w = Normal (userRequest, w1) ->
  UserRequest_save userRequest w1 = Normal (tt, w2) ->
  exists this',
    UserRequests.addUserRequest this dataRoomId role w =
      Normal ((true, this'),
              emitting [SuccessMessage ("UserRequest added successfully: "
                                        +:+ UserRequest_id userRequest)] w2)
    /\ UserRequests.userRequests this'
       = UserRequests.userRequests this ++ [UserRequest_id userRequest]
    /\ (forall i id, UserRequests.userRequests this !! i = Some id ->
                     UserRequests.userRequests this' !! i = Some id)
    /\ last (UserRequests.userRequests this') = Some (UserRequest_id userRequest)
    /\ length (UserRequests.userRequests this')
       = S (length (UserRequests.userRequests this)).
Proof.
  intros Hnew Hsave. eexists.
  split; [exact (addUserRequest_run _ _ _ _ _ _ _ Hnew Hsave)|]. simpl.
  repeat split.
  - intros i id Hi. now apply lookup_app_l_Some.
  - apply last_snoc.
  - rewrite length_app. simpl. lia.
Qed.

(** X5: adding a request whose id is new to the index and then removing
    it by that id gives back the index as it was before the addition. *)
Theorem addUserRequest_then_removeUserRequest (this : UserRequests.t)
    (dataRoomId role : string) (w w1 w2 w3 w4 : World)
    (created loaded deleted : UserRequest) :
  UserRequest_new dataRoomId role w = Normal (created, w1) ->
  UserRequest_save created w1 = Normal (tt, w2) ->
  UserRequest_id created ∉ UserRequests.userRequests this ->
  UserRequest_load (UserRequest_id created)
    (emitting [SuccessMessage ("UserRequest added successfully: "
                               +:+ UserRequest_id created)] w2)
  = Normal (Some loaded, w3) ->
  UserRequest_delete loaded w3 = Normal (deleted, w4) ->
  UserRequest_id deleted = UserRequest_id created ->
  exists this' w',
    UserRequests.addUserRequest this dataRoomId role w = Normal ((true, this'), w')
    /\ UserRequests.removeUserRequest this' (UserRequest_id created) w'
       = Normal ((true, this), w4).
Proof.
  intros Hnew Hsave Hfresh Hload Hdelete Hid. destruct this as [ids]. simpl in *.
  eexists _, _.
  split; [exact (addUserRequest_run _ _ _ _ _ _ _ Hnew Hsave)|]. simpl.
  rewrite (removeUserRequest_found _ _ _ _ _ _ _ Hload Hdelete). simpl.
  rewrite Hid, (splice_indexOf_first _ _ _ Hfresh). now rewrite app_nil_r.
Qed.

End AddUserRequest.

(** ** Deleting the collection, and what [save] touches *)

Section DeleteCollection.
Context `{JSON UserRequests.t} `{UserRequestClass}.

Lemma delete_children_returns (ids : list string) (w : World) :
  (forall id w, exists found w', UserRequest_load id w = Normal (found, w')) ->
  (forall u w, exists u' w', UserRequest_delete u w = Normal (u', w')) ->
  exists w', UserRequests.delete_children ids w = Normal (tt, w').
Proof.
  intros Hload Hdelete. revert w.
  induction ids as [|id ids IH]; intros w; simpl; [now eexists|].
  destruct (Hload id w) as (found & w1 & Hfound).
  rewrite (bind_normal _ _ _ _ _ Hfound).
  destruct found as [u|].
  - destruct (Hdelete u w1) as (u' & w2 & Hu).
    unfold mbind at 1, Contract_bind at 1.
    unfold mbind at 1, Contract_bind at 1. rewrite Hu. simpl. apply IH.
  - unfold mbind at 1, Contract_bind at 1. simpl. apply IH.
Qed.

(** X6: when the child class answers every load and delete (no trap),
    [delete] returns an empty collection and persists it: a [load]
    right after finds the empty collection, however many ids were
    indexed and whether or not their requests still existed. *)
Theorem delete_leaves_an_empty_persisted_collection
    `{!JSONFaithful UserRequests.t} (this : UserRequests.t) (w : World) :
  (forall id w, exists found w', UserRequest_load id w = Normal (found, w')) ->
  (forall u w, exists u' w', UserRequest_delete u w = Normal (u', w')) ->
  exists w',
    UserRequests.delete this w = Normal (UserRequests.new, w')
    /\ UserRequests.allRow w' = JSON_stringify UserRequests.new
    /\ UserRequests.load w' = Normal (UserRequests.new, w').
Proof.
  intros Hload Hdelete.
  destruct (delete_children_returns (UserRequests.userRequests this) w Hload Hdelete)
    as (w1 & Hchildren).
  destruct (save_row UserRequests.new w1) as (w2 & Hsave & Hrow).
  exists w2. unfold UserRequests.delete.
  rewrite (bind_normal _ _ _ _ _ Hchildren).
  fold UserRequests.new. rewrite (bind_normal _ _ _ _ _ Hsave).
  repeat split; [exact Hrow|].
  apply load_present; rewrite Hrow.
  - apply JSON_stringify_nonempty.
  - apply JSON_parse_stringify.
Qed.

(** X7: [save] writes the "ALL" row of the collection's table and
    nothing else: every other row, the call context and the
    notifications are as before.  The last save wins: saving over an
    earlier save leaves the same world as saving once. *)
Theorem save_writes_one_row (earlier this : UserRequests.t) (w : World) :
  exists w1 w2,
    UserRequests.save earlier w = Normal (tt, w1)
    /\ UserRequests.save this w1 = Normal (tt, w2)
    /\ UserRequests.save this w = Normal (tt, w2)
    /\ UserRequests.allRow w2 = JSON_stringify this
    /\ (forall table key,
          (table, key) <> (UserRequests.UserRequestsTable, "ALL") ->
          ledger w2 !! (table, key) = ledger w !! (table, key))
    /\ context w2 = context w
    /\ notifications w2 = notifications w.
Proof.
  eexists _, _. split; [reflexivity|]. split; [reflexivity|].
  unfold UserRequests.save, Table_set, UserRequests.allRow. simpl.
  rewrite insert_insert_eq.
  repeat split.
  - now rewrite lookup_insert_eq.
  - intros table key Hother. now rewrite lookup_insert_ne.
Qed.

End DeleteCollection.

(** ** [Keys]: what every call emits, and how the methods compose *)

Section KeysBehaviour.
Context `{CryptoSDK}.

(** X8: every call of [exportStorageServerPrivateKey] returns normally,
    pushes exactly one notification and leaves the ledger and the
    context alone; it answers [true] exactly when that notification is
    the success message carrying the key, and [false] exactly when it
    is an error message. *)
Theorem exportStorageServerPrivateKey_emits_once
    (this : Keys.t) (format : option string) (w : World) :
  exists (ok : bool) (n : Notification),
    Keys.exportStorageServerPrivateKey this format w = Normal (ok, emitting [n] w)
    /\ (ok = true <-> exists text, n = SuccessMessage text)
    /\ (ok = false <-> exists text, n = ErrorMessage text).
Proof.
  unfold Keys.exportStorageServerPrivateKey.
  destruct (String.eqb (Keys.storageServer_private_key this) "").
  { eexists _, _. split; [reflexivity|].
    split; split; try discriminate; try (intros [? ?]; discriminate); eauto. }
  destruct (Crypto_ECDSA_getKey _) as [key|].
  2:{ eexists _, _. split; [reflexivity|].
      split; split; try discriminate; try (intros [? ?]; discriminate); eauto. }
  destruct (SubtleCrypto_loadKey _) as [[[cryptoKey|]]|].
  2,3: (eexists _, _; split; [reflexivity|];
        split; split; try discriminate; try (intros [? ?]; discriminate); eauto).
  destruct (SubtleCrypto_exportKey _ _) as [[[arrayBuffer|]]|].
  2,3: (eexists _, _; split; [reflexivity|];
        split; split; try discriminate; try (intros [? ?]; discriminate); eauto).
  eexists _, _. split; [reflexivity|].
  split; split; try discriminate; try (intros [? ?]; discriminate); eauto.
Qed.

(** X9: [list] emits the structured result, tagged with the request id
    of the call and carrying the PEM of the klave-server key and the PEM
    of the storage-server key in that order, when the two references are
    not both empty and both keys are retrieved; and it never emits a
    structured result unless both keys were retrieved. *)
Theorem list_emits_both_public_keys (this : Keys.t) (w : World) :
  let klave := Keys.klaveServer_private_key this in
  let storage := Keys.storageServer_private_key this in
  (forall key1 key2,
     ~ (klave = "" /\ storage = "") ->
     Crypto_ECDSA_getKey klave = Some key1 ->
     Crypto_ECDSA_getKey storage = Some key2 ->
     Keys.list this w =
       Normal (tt, emitting
         [TokenIdentityOutput (request_id w)
            (mkKeysList (KeyECC_getPublicKey_getPem key1)
                        (KeyECC_getPublicKey_getPem key2))] w))
  /\ (forall ns requestId pems,
        Keys.list this w = Normal (tt, emitting ns w) ->
        TokenIdentityOutput requestId pems ∈ ns ->
        is_Some (Crypto_ECDSA_getKey klave)
        /\ is_Some (Crypto_ECDSA_getKey storage)).
Proof.
  intros klave storage. unfold Keys.list. fold klave storage. split.
  - intros key1 key2 Hset Hk1 Hk2.
    destruct (String.eqb_spec klave "") as [Hk|Hk];
      destruct (String.eqb_spec storage "") as [Hs|Hs]; simpl;
      try tauto; now rewrite Hk1, Hk2.
  - intros ns requestId pems Hrun Hin.
    destruct (String.eqb klave "" && String.eqb storage "");
      [|destruct (Crypto_ECDSA_getKey klave) as [key1|];
        [destruct (Crypto_ECDSA_getKey storage) as [key2|]|]];
      try (split; now eexists);
      unfold success, error, notify, emitting in Hrun;
      injection Hrun as Hrun; apply app_inv_head in Hrun; subst ns;
      apply list_elem_of_singleton in Hin; discriminate Hin.
Qed.

(** X10: right after [clearKeys], whatever the key store holds,
    [exportStorageServerPrivateKey] fails at its first check, with the
    "does not exist" error, and [list] reports that no keys have been
    set: the keys still in the store are out of reach of both. *)
Theorem clearKeys_then_export_and_list (this : Keys.t) (format : option string)
    (w : World) :
  exists this' w',
    Keys.clearKeys this w = Normal ((true, this'), w')
    /\ w' = emitting [SuccessMessage
                        "Both klaveServer and storageServer keys now removed successfully"] w
    /\ Keys.exportStorageServerPrivateKey this' format w' =
         Normal (false,
                 emitting [ErrorMessage "Storage server private key does not exist."] w')
    /\ Keys.list this' w' =
         Normal (tt, emitting [SuccessMessage "No keys have been set yet."] w').
Proof. eexists _, _. repeat split. Qed.

End KeysBehaviour.

Section KeysGeneration.
Context `{CryptoKeyGen}.

(** X11: when the SDK creates no key (a null answer, or a result
    without data) either generate method returns [false] and leaves
    both references as they were; the failure is reported through
    [success], and both methods use the same text, which names the
    klave-server key. *)
Theorem generate_failure_keeps_the_references (this : Keys.t) (w : World) :
  let told := emitting [SuccessMessage "KlaveServer private key could not be created."] w in
  (Crypto_ECDSA_generateKey (Keys.klaveServer_private_key this) = None
   \/ Crypto_ECDSA_generateKey (Keys.klaveServer_private_key this)
      = Some (mkResult None) ->
   Keys.generateKlaveServerPrivateKey this w = Normal ((false, this), told))
  /\ (Crypto_ECDSA_generateKey (Keys.storageServer_private_key this) = None
      \/ Crypto_ECDSA_generateKey (Keys.storageServer_private_key this)
         = Some (mkResult None) ->
      Keys.generateStorageServerPrivateKey this w = Normal ((false, this), told)).
Proof.
  intros told. unfold Keys.generateKlaveServerPrivateKey,
    Keys.generateStorageServerPrivateKey.
  split; intros [E|E]; rewrite E; reflexivity.
Qed.

(** X12: generating the klave-server key and then the storage-server
    key, when the SDK creates both under non-empty names, returns
    [true] twice without any notification; each method stores the name
    of its key in its own reference and leaves the other reference
    alone, and the resulting object is set. *)
Theorem generate_both_keys_sets_the_object (this : Keys.t) (w : World)
    (key1 key2 : KeyECC) :
  Crypto_ECDSA_generateKey (Keys.klaveServer_private_key this)
    = Some (mkResult (Some key1)) ->
  Crypto_ECDSA_generateKey (Keys.storageServer_private_key this)
    = Some (mkResult (Some key2)) ->
  KeyECC_name key1 <> "" ->
  KeyECC_name key2 <> "" ->
  exists this1 this2,
    Keys.generateKlaveServerPrivateKey this w = Normal ((true, this1), w)
    /\ Keys.storageServer_private_key this1 = Keys.storageServer_private_key this
    /\ Keys.generateStorageServerPrivateKey this1 w = Normal ((true, this2), w)
    /\ this2 = Keys.mk (KeyECC_name key1) (KeyECC_name key2)
    /\ Keys.isSet this2 = true.
Proof.
  intros Hklave Hstorage Hname1 Hname2.
  exists (Keys.mk (KeyECC_name key1) (Keys.storageServer_private_key this)),
         (Keys.mk (KeyECC_name key1) (KeyECC_name key2)).
  unfold Keys.generateKlaveServerPrivateKey, Keys.generateStorageServerPrivateKey.
  simpl. rewrite Hklave, Hstorage. repeat split.
  unfold Keys.isSet. simpl.
  now rewrite (eqb_empty_false _ Hname1), (eqb_empty_false _ Hname2).
Qed.

End KeysGeneration.

Section KeysPersistence.
Context `{JSON Keys.t}.

Lemma keys_load_absent (w : World) :
  Keys.allRow w = "" -> Keys.load w = Normal (Keys.new, w).
Proof.
  intros Hrow. unfold Keys.load, mbind, Contract_bind, Table_get.
  fold (Keys.allRow w). now rewrite Hrow.
Qed.

Lemma keys_load_present (w : World) (this : Keys.t) :
  String.length (Keys.allRow w) <> 0 ->
  JSON_parse (Keys.allRow w) = Some this ->
  Keys.load w = Normal (this, w).
Proof.
  intros Hlen Hparse. unfold Keys.load, mbind, Contract_bind, Table_get.
  fold (Keys.allRow w).
  destruct (Nat.eqb_spec (String.length (Keys.allRow w)) 0) as [E|_]; [contradiction|].
  unfold parse. now rewrite Hparse.
Qed.

(** X13: [Keys.load] on a ledger without the keys' row returns an
    object with both references empty, which is not set; and with a
    codec that parses back what it serialises, [save] followed by
    [load] returns the saved object and touches no other row of the
    ledger. *)
Theorem keys_load_fresh_and_save_load `{!JSONFaithful Keys.t} :
  (forall w, Keys.allRow w = "" ->
     exists this, Keys.load w = Normal (this, w)
                  /\ Keys.klaveServer_private_key this = ""
                  /\ Keys.storageServer_private_key this = ""
                  /\ Keys.isSet this = false)
  /\ (forall (this : Keys.t) (w : World),
        exists w', Keys.save this w = Normal (tt, w')
                   /\ Keys.load w' = Normal (this, w')
                   /\ (forall table key,
                         (table, key) <> (Keys.KeysTable, "ALL") ->
                         ledger w' !! (table, key) = ledger w !! (table, key))).
Proof.
  split.
  - intros w Hrow. exists Keys.new. split; [now apply keys_load_absent|].
    repeat split.
  - intros this w. eexists. split; [reflexivity|]. split.
    + apply keys_load_present; unfold Keys.allRow; simpl; rewrite lookup_insert_eq; simpl.
      * apply JSON_stringify_nonempty.
      * apply JSON_parse_stringify.
    + intros table key Hother. simpl. now rewrite lookup_insert_ne.
Qed.

End KeysPersistence.

(** ** The client wrappers: when the promise is pending, fulfilled, rejected *)

Section ClientOutcome.
Variable klaveContract : string.
Variable h : Api.Handler.

Lemma awaitTransaction_outcome (tx : Api.Transaction) :
  Api.awaitTransaction tx =
    match Api.events tx with
    | [] => Api.Pending
    | ev :: _ => Api.deliver Api.Pending ev
    end.
Proof.
  destruct (Api.events tx) as [|ev later] eqn:E.
  - unfold Api.awaitTransaction. now rewrite E.
  - exact (awaitTransaction_first _ _ _ E).
Qed.

(** The whole call, by cases on what the handler does. *)
Lemma call_outcome (op : Api.Operation) :
  Api.call klaveContract h op =
    if decide (true ∈ Api.isConnected h) then
      match Api.request h (Api.requestOf klaveContract h op) with
      | Api.Pending => Api.Pending
      | Api.Rejected reason => Api.Rejected reason
      | Api.Fulfilled tx =>
          match Api.events tx with
          | [] => Api.Pending
          | ev :: _ => Api.deliver Api.Pending ev
          end
      end
    else Api.Pending.
Proof.
  rewrite call_shape. unfold Api.waitForConnection.
  destruct (decide (true ∈ Api.isConnected h)) as [Hup|Hdown].
  - rewrite (loopCondition_ready _ Hup). simpl.
    destruct (Api.request h _) as [|tx|reason]; simpl; try reflexivity.
    apply awaitTransaction_outcome.
  - now rewrite (loopCondition_waiting _ Hdown).
Qed.

(** X14: the promise of an operation stays pending in exactly three
    situations: no poll finds the connection up (the wrapper waits
    without limit, whatever the handler would answer), the handler's
    request promise is itself pending, or the transaction calls nothing
    back (there is no timeout). *)
Theorem call_pending_iff (op : Api.Operation) :
  Api.call klaveContract h op = Api.Pending <->
  (true ∉ Api.isConnected h
   \/ Api.request h (Api.requestOf klaveContract h op) = Api.Pending
   \/ exists tx, Api.request h (Api.requestOf klaveContract h op) = Api.Fulfilled tx
                 /\ Api.events tx = []).
Proof.
  rewrite call_outcome.
  destruct (decide (true ∈ Api.isConnected h)) as [Hup|Hdown]; [|tauto].
  destruct (Api.request h _) as [|tx|reason].
  - tauto.
  - destruct (Api.events tx) as [|ev later] eqn:E.
    + split; [|reflexivity]. intros _. right. right. now exists tx.
    + split.
      * destruct ev; discriminate.
      * intros [Hdown|[Hreq|(tx' & Htx & Hev)]];
          [contradiction | discriminate |].
        injection Htx as <-. congruence.
  - split; [discriminate|].
    intros [Hdown|[Hreq|(tx' & Htx & _)]]; [contradiction | discriminate | discriminate].
Qed.

(** X15: the promise of an operation is fulfilled with a value exactly
    when the connection came up, the handler produced the transaction,
    and the first of the wrapper's three closures to run was the result
    handler, with that value (a rejection of [send()] whose catch
    handler has not run yet does not count: see X20). *)
Theorem call_fulfilled_iff (op : Api.Operation) (value : Api.JSValue) :
  Api.call klaveContract h op = Api.Fulfilled value <->
  (true ∈ Api.isConnected h
   /\ exists tx later,
        Api.request h (Api.requestOf klaveContract h op) = Api.Fulfilled tx
        /\ Api.events tx = Api.OnResult value :: later).
Proof.
  rewrite call_outcome.
  destruct (decide (true ∈ Api.isConnected h)) as [Hup|Hdown];
    [|split; [discriminate | tauto]].
  destruct (Api.request h _) as [|tx|reason].
  - split; [discriminate | intros (_ & ? & ? & ? & _); discriminate].
  - destruct (Api.events tx) as [|ev later] eqn:E.
    + split; [discriminate|]. intros (_ & tx' & later & [= <-] & Hev). congruence.
    + split.
      * destruct ev; simpl; try discriminate.
        intros [= <-]. split; [exact Hup|]. now exists tx, later.
      * intros (_ & tx' & later' & [= <-] & Hev).
        rewrite E in Hev. now injection Hev as -> _.
  - split; [discriminate | intros (_ & ? & ? & ? & _); discriminate].
Qed.

(** X16: the promise of an operation is rejected with a reason exactly
    when the connection came up and either the handler's request
    promise was rejected with that reason (no transaction is then
    sent), or the first of the wrapper's three closures to run was the
    error handler with that reason, or the handler given to
    [tx.send().catch] with that reason. *)
Theorem call_rejected_iff (op : Api.Operation) (reason : Api.JSValue) :
  Api.call klaveContract h op = Api.Rejected reason <->
  (true ∈ Api.isConnected h
   /\ (Api.request h (Api.requestOf klaveContract h op) = Api.Rejected reason
       \/ exists tx later,
            Api.request h (Api.requestOf klaveContract h op) = Api.Fulfilled tx
            /\ (Api.events tx = Api.OnError reason :: later
                \/ Api.events tx = Api.SendCatch reason :: later))).
Proof.
  rewrite call_outcome.
  destruct (decide (true ∈ Api.isConnected h)) as [Hup|Hdown];
    [|split; [discriminate | tauto]].
  destruct (Api.request h _) as [|tx|reason'].
  - split; [discriminate|].
    intros (_ & [?|(? & ? & ? & _)]); discriminate.
  - destruct (Api.events tx) as [|ev later] eqn:E.
    + split; [discriminate|].
      intros (_ & [?|(tx' & later & [= <-] & [Hev|Hev])]);
        [discriminate | congruence | congruence].
    + split.
      * destruct ev; simpl; try discriminate; intros [= <-];
          (split; [exact Hup|]); right; exists tx, later; tauto.
      * intros (_ & [?|(tx' & later' & [= <-] & [Hev|Hev])]);
          [discriminate | |]; rewrite E in Hev; now injection Hev as -> _.
  - split.
    + intros [= <-]. tauto.
    + intros (_ & [[= <-]|(? & ? & ? & _)]); [reflexivity | discriminate].
Qed.

End ClientOutcome.

(** ** [rmPemDecorators] beyond single well-formed documents *)

Lemma remove_all_gone (c : ascii) (s : string) :
  Api.all_chars (fun d => negb (Ascii.eqb d c)) (JS.remove_all c s) = true.
Proof.
  induction s as [|d s IH]; [reflexivity|]. simpl.
  destruct (Ascii.eqb d c) eqn:E; [exact IH|]. simpl. now rewrite E.
Qed.

Lemma remove_all_keeps_absent (c e : ascii) (s : string) :
  Api.all_chars (fun d => negb (Ascii.eqb d e)) s = true ->
  Api.all_chars (fun d => negb (Ascii.eqb d e)) (JS.remove_all c s) = true.
Proof.
  induction s as [|d s IH]; intros Hs; [reflexivity|].
  simpl in Hs. apply andb_true_iff in Hs as [Hd Hs]. simpl.
  destruct (Ascii.eqb d c); [now apply IH|]. simpl. now rewrite Hd, IH.
Qed.

(** X17: whatever text it is given, and for whatever key type,
    [rmPemDecorators] returns a text without any newline or carriage
    return. *)
Theorem rmPemDecorators_has_no_line_break (pemFile type : string) :
  Api.all_chars (fun c => negb (Api.line_break_char c))
    (Api.rmPemDecorators pemFile type) = true.
Proof.
  unfold Api.rmPemDecorators.
  set (s := JS.replace (JS.replace pemFile _ "") _ "").
  assert (Hn : Api.all_chars (fun d => negb (Ascii.eqb d Api.newline))
                 (JS.remove_all Api.carriage_return (JS.remove_all Api.newline s)) = true)
    by apply remove_all_keeps_absent, remove_all_gone.
  assert (Hr : Api.all_chars (fun d => negb (Ascii.eqb d Api.carriage_return))
                 (JS.remove_all Api.carriage_return (JS.remove_all Api.newline s)) = true)
    by apply remove_all_gone.
  revert Hn Hr.
  generalize (JS.remove_all Api.carriage_return (JS.remove_all Api.newline s)).
  intros t. induction t as [|c t IH]; [reflexivity|]. simpl.
  intros Hn Hr. apply andb_true_iff in Hn as [Hn Hn'], Hr as [Hr Hr'].
  unfold Api.line_break_char at 1.
  apply negb_true_iff in Hn, Hr. rewrite Hn, Hr. simpl. now apply IH.
Qed.

(** A pattern that starts with a character the text does not contain is
    not found: the text comes back unchanged. *)
Lemma replace_not_found (s pat' rep : string) (a : ascii) :
  Api.all_chars (fun c => negb (Ascii.eqb c a)) s = true ->
  JS.replace s (String a pat') rep = s.
Proof.
  intros Hs. rewrite <- (append_empty_r s) at 1.
  rewrite (replace_skip _ _ _ _ _ Hs). apply append_empty_r.
Qed.

(** X18: a text without any dash carries no decoration, so
    [rmPemDecorators] only removes its newlines and carriage returns;
    in particular key data that is already bare base64 comes back
    unchanged, for every key type. *)
Theorem rmPemDecorators_on_undecorated_text (pemFile type : string) :
  (Api.all_chars (fun c => negb (Ascii.eqb c "-")) pemFile = true ->
   Api.rmPemDecorators pemFile type = Api.strip_breaks pemFile)
  /\ (Api.all_chars Api.base64_char pemFile = true ->
      Api.rmPemDecorators pemFile type = pemFile).
Proof.
  assert (Hplain : Api.all_chars (fun c => negb (Ascii.eqb c "-")) pemFile = true ->
                   Api.rmPemDecorators pemFile type = Api.strip_breaks pemFile).
  { intros Hs. unfold Api.rmPemDecorators.
    change ("-----BEGIN " +:+ type +:+ " KEY-----")
      with (String "-" ("----BEGIN " +:+ type +:+ " KEY-----")).
    change ("-----END " +:+ type +:+ " KEY-----")
      with (String "-" ("----END " +:+ type +:+ " KEY-----")).
    now rewrite !(replace_not_found _ _ _ _ Hs). }
  split; [exact Hplain|].
  intros Hs. rewrite (Hplain (no_dash_line _ Hs)). now apply strip_breaks_line.
Qed.

Lemma strip_breaks_plain (s : string) :
  Api.all_chars (fun c => negb (Api.line_break_char c)) s = true ->
  Api.strip_breaks s = s.
Proof.
  unfold Api.strip_breaks.
  induction s as [|c s IH]; intros Hs; [reflexivity|].
  simpl in Hs. apply andb_true_iff in Hs as [Hc Hs].
  unfold Api.line_break_char in Hc. apply negb_true_iff, orb_false_iff in Hc as [Hn Hr].
  simpl. rewrite Hn. simpl. rewrite Hr. f_equal. now apply IH.
Qed.

Lemma replace_skip_to_end_line (pre s type rep : string) :
  Api.all_chars (fun c => negb (Ascii.eqb c "-")) pre = true ->
  JS.replace (pre +:+ s) ("-----END " +:+ type +:+ " KEY-----") rep
  = pre +:+ JS.replace s ("-----END " +:+ type +:+ " KEY-----") rep.
Proof.
  change ("-----END " +:+ type +:+ " KEY-----")
    with (String "-" ("----END " +:+ type +:+ " KEY-----")).
  apply replace_skip.
Qed.

(** X19: only the first BEGIN line and the first END line are removed.
    Given two PEM documents of the stripped type one after the other (a
    bundle), [rmPemDecorators] returns the body of the first followed
    by the BEGIN line, the body and the END line of the second, all on
    one line. *)
Theorem rmPemDecorators_strips_the_first_document_only
    (type eol : string) (body1 body2 : list string) :
  Api.all_chars (fun c => negb (Api.line_break_char c)) type = true ->
  Api.wellFormedPem eol body1 = true ->
  Api.wellFormedPem eol body2 = true ->
  Api.rmPemDecorators
    (Api.pemDocument type eol body1 +:+ Api.pemDocument type eol body2) type
  = Api.pemBody body1
    +:+ ("-----BEGIN " +:+ type +:+ " KEY-----")
    +:+ Api.pemBody body2
    +:+ ("-----END " +:+ type +:+ " KEY-----").
Proof.
  intros Htype Hwf1 Hwf2.
  assert (Heol : Api.all_chars Api.line_break_char eol = true).
  { unfold Api.wellFormedPem in Hwf1. now apply andb_true_iff in Hwf1 as [? _]. }
  unfold Api.rmPemDecorators.
  unfold Api.pemDocument at 1.
  rewrite (append_assoc ("-----BEGIN " +:+ type +:+ " KEY-----")), replace_at_start.
  rewrite (append_assoc eol), (append_assoc (Api.pemLines eol body1)),
    (append_assoc ("-----END " +:+ type +:+ " KEY-----")),
    <- (append_assoc eol (Api.pemLines eol body1)).
  rewrite replace_skip_to_end_line, replace_at_start.
  2:{ apply no_dash_append; [now apply no_dash_eol | now apply pemLines_no_dash]. }
  fold (Api.strip_breaks ((eol +:+ Api.pemLines eol body1)
                          +:+ eol +:+ Api.pemDocument type eol body2)).
  unfold Api.pemDocument.
  rewrite !strip_breaks_append, !(strip_breaks_eol _ Heol),
    (pemLines_strip_breaks _ _ Hwf1), (pemLines_strip_breaks _ _ Hwf2),
    (strip_breaks_plain _ Htype).
  change (Api.strip_breaks "-----BEGIN ") with "-----BEGIN ".
  change (Api.strip_breaks "-----END ") with "-----END ".
  change (Api.strip_breaks " KEY-----") with " KEY-----".
  rewrite !append_nil_l, !append_empty_r, !append_assoc. reflexivity.
Qed.

(** ** Concrete runs for the further properties *)

Lemma read_literal_write_chars (x cur rest : string) :
  Reference.read_literal false cur
    (Reference.write_chars x (String Reference.dquote rest))
  = Some (cur +:+ x, rest).
Proof.
  revert cur. induction x as [|c x IH]; intros cur; simpl.
  - now rewrite append_empty_r.
  - destruct (Reference.special c) eqn:Hs.
    + destruct (special_cases c Hs) as [-> | ->]; simpl;
        rewrite IH, append_assoc_char; reflexivity.
    + destruct (special_not c Hs) as [Hq Hb]. simpl. rewrite Hq, Hb.
      rewrite IH, append_assoc_char. reflexivity.
Qed.

Lemma reference_keys_json_faithful : @JSONFaithful Keys.t Reference.keys_json.
Proof.
  split.
  - intros [klave storage]. simpl.
    unfold Reference.keys_parse, Reference.keys_stringify. simpl.
    rewrite read_literal_write_chars. simpl.
    rewrite read_literal_write_chars. simpl. reflexivity.
  - intros x. simpl. discriminate.
Qed.

Lemma reference_load_answers (id : string) (w : World) :
  exists found w', @UserRequest_load Reference.userRequestClass id w = Normal (found, w').
Proof. eexists _, _. reflexivity. Qed.

Lemma reference_delete_answers (u : Reference.StoredRequest) (w : World) :
  exists u' w', @UserRequest_delete Reference.userRequestClass u w = Normal (u', w').
Proof. eexists _, _. reflexivity. Qed.

Lemma removeUserRequest_cuts_first_occurrence_witness :
  let stored := Reference.mkStored "r9" "room/viewer" in
  let w := mkWorld {[ (Reference.ChildTable, "r9") := "room/viewer" ]} ∅ [] in
  ("r9" ∉ ["r1"])
  /\ @UserRequests.removeUserRequest Reference.userRequestClass
       (UserRequests.mk (["r1"] ++ "r9" :: ["r2"; "r9"])) "r9" w
     = Normal ((true, UserRequests.mk (["r1"] ++ ["r2"; "r9"])), Reference.emptyWorld).
Proof.
  intros stored w.
  assert (Hpre : "r9" ∉ ["r1"]) by (apply (bool_decide_unpack _); vm_compute; exact I).
  split; [exact Hpre|].
  apply (@removeUserRequest_cuts_first_occurrence Reference.userRequestClass
           ["r1"] ["r2"; "r9"] "r9" w w Reference.emptyWorld stored stored).
  - vm_compute. reflexivity.
  - vm_compute. reflexivity.
  - exact Hpre.
Defined.

Lemma removeUserRequest_forgets_the_id_witness :
  let stored := Reference.mkStored "r9" "room/viewer" in
  let w := mkWorld {[ (Reference.ChildTable, "r9") := "room/viewer" ]} ∅ [] in
  let this := UserRequests.mk ["r1"; "r9"; "r2"] in
  exists this',
    @UserRequests.removeUserRequest Reference.userRequestClass this "r9" w
      = Normal ((true, this'), Reference.emptyWorld)
    /\ ("r9" ∉ UserRequests.userRequests this')
    /\ NoDup (UserRequests.userRequests this')
    /\ (forall other, other <> "r9" ->
          (other ∈ UserRequests.userRequests this' <-> other ∈ ["r1"; "r9"; "r2"])).
Proof.
  intros stored w this.
  apply (@removeUserRequest_forgets_the_id Reference.userRequestClass
           this "r9" w w Reference.emptyWorld stored stored).
  - vm_compute. reflexivity.
  - vm_compute. reflexivity.
  - apply (bool_decide_unpack _). vm_compute. exact I.
  - apply (bool_decide_unpack _). vm_compute. exact I.
Defined.

Lemma removeUserRequest_takes_one_entry_witness :
  let stored := Reference.mkStored "r9" "room/viewer" in
  let w := mkWorld {[ (Reference.ChildTable, "r9") := "room/viewer" ]} ∅ [] in
  (exists this',
     @UserRequests.removeUserRequest Reference.userRequestClass
       (UserRequests.mk ["r1"; "r2"; "r3"]) "r9" w
       = Normal ((true, this'), Reference.emptyWorld)
     /\ length (UserRequests.userRequests this') = 3 - 1)
  /\ (exists this',
        @UserRequests.removeUserRequest Reference.userRequestClass
          UserRequests.new "r9" w
          = Normal ((true, this'), Reference.emptyWorld)
        /\ length (UserRequests.userRequests this') = 0 - 1).
Proof.
  intros stored w. split.
  - apply (@removeUserRequest_takes_one_entry Reference.userRequestClass
             (UserRequests.mk ["r1"; "r2"; "r3"]) "r9" w w Reference.emptyWorld
             stored stored); vm_compute; reflexivity.
  - apply (@removeUserRequest_takes_one_entry Reference.userRequestClass
             UserRequests.new "r9" w w Reference.emptyWorld
             stored stored); vm_compute; reflexivity.
Defined.

Lemma addUserRequest_appends_the_new_id_witness :
  let created := Reference.mkStored "room/viewer" "room/viewer" in
  let w2 := mkWorld {[ (Reference.ChildTable, "room/viewer") := "room/viewer" ]} ∅ [] in
  exists this',
    @UserRequests.addUserRequest Reference.userRequestClass
      (UserRequests.mk ["r1"; "r2"]) "room" "viewer" Reference.emptyWorld
    = Normal ((true, this'),
              emitting [SuccessMessage "UserRequest added successfully: room/viewer"] w2)
    /\ UserRequests.userRequests this' = ["r1"; "r2"] ++ ["room/viewer"]
    /\ (forall i id, ["r1"; "r2"] !! i = Some id ->
                     UserRequests.userRequests this' !! i = Some id)
    /\ last (UserRequests.userRequests this') = Some "room/viewer"
    /\ length (UserRequests.userRequests this') = 3.
Proof.
  intros created w2.
  apply (@addUserRequest_appends_the_new_id Reference.userRequestClass
           (UserRequests.mk ["r1"; "r2"]) "room" "viewer"
           Reference.emptyWorld Reference.emptyWorld w2 created).
  - reflexivity.
  - vm_compute. reflexivity.
Defined.

Lemma addUserRequest_then_removeUserRequest_witness :
  let this := UserRequests.mk ["r1"; "r2"] in
  exists this' w',
    @UserRequests.addUserRequest Reference.userRequestClass this "room" "viewer"
      Reference.emptyWorld = Normal ((true, this'), w')
    /\ @UserRequests.removeUserRequest Reference.userRequestClass this'
         "room/viewer" w'
       = Normal ((true, this),
                 emitting [SuccessMessage "UserRequest added successfully: room/viewer"]
                   Reference.emptyWorld).
Proof.
  intros this.
  pose (created := Reference.mkStored "room/viewer" "room/viewer").
  pose (w2 := mkWorld {[ (Reference.ChildTable, "room/viewer") := "room/viewer" ]} ∅ []).
  apply (@addUserRequest_then_removeUserRequest Reference.userRequestClass
           this "room" "viewer" Reference.emptyWorld Reference.emptyWorld w2
           (emitting [SuccessMessage "UserRequest added successfully: room/viewer"] w2)
           (emitting [SuccessMessage "UserRequest added successfully: room/viewer"]
              Reference.emptyWorld)
           created created created).
  - reflexivity.
  - vm_compute. reflexivity.
  - apply (bool_decide_unpack _). vm_compute. exact I.
  - vm_compute. reflexivity.
  - vm_compute. reflexivity.
  - reflexivity.
Defined.

Lemma delete_leaves_an_empty_persisted_collection_witness :
  let w := mkWorld {[ (Reference.ChildTable, "r9") := "room/viewer" ]} ∅ [] in
  exists w',
    @UserRequests.delete Reference.json Reference.userRequestClass
      (UserRequests.mk ["r9"; "gone"]) w = Normal (UserRequests.new, w')
    /\ UserRequests.allRow w' = Reference.stringify UserRequests.new
    /\ @UserRequests.load Reference.json w' = Normal (UserRequests.new, w').
Proof.
  intros w.
  apply (@delete_leaves_an_empty_persisted_collection Reference.json
           Reference.userRequestClass reference_json_faithful
           (UserRequests.mk ["r9"; "gone"]) w
           reference_load_answers reference_delete_answers).
Defined.

Lemma list_emits_both_public_keys_witness :
  let sdk := Reference.crypto ["klave-key"; "storage-key"] in
  let w := mkWorld ∅ {[ "request_id" := "42" ]} [] in
  @Keys.list sdk (Keys.mk "klave-key" "storage-key") w =
    Normal (tt, emitting
      [TokenIdentityOutput "42"
         (mkKeysList "PEM of klave-key" "PEM of storage-key")] w).
Proof.
  intros sdk w.
  apply (proj1 (@list_emits_both_public_keys sdk (Keys.mk "klave-key" "storage-key") w)
           "klave-key" "storage-key").
  - intros [E _]. discriminate E.
  - reflexivity.
  - reflexivity.
Defined.

Lemma generate_failure_keeps_the_references_witness :
  let gen := Reference.keygen [] ["refused"] "fresh" in
  let this := Keys.mk "refused" "kept" in
  @Keys.generateKlaveServerPrivateKey _ gen this Reference.emptyWorld
  = Normal ((false, this),
            emitting [SuccessMessage "KlaveServer private key could not be created."]
              Reference.emptyWorld).
Proof.
  intros gen this.
  apply (proj1 (@generate_failure_keeps_the_references _ gen this Reference.emptyWorld)).
  left. reflexivity.
Defined.

Lemma generate_both_keys_sets_the_object_witness :
  let gen := Reference.keygen [] [] "fresh" in
  exists this1 this2,
    @Keys.generateKlaveServerPrivateKey _ gen (Keys.mk "" "old") Reference.emptyWorld
      = Normal ((true, this1), Reference.emptyWorld)
    /\ Keys.storageServer_private_key this1 = "old"
    /\ @Keys.generateStorageServerPrivateKey _ gen this1 Reference.emptyWorld
       = Normal ((true, this2), Reference.emptyWorld)
    /\ this2 = Keys.mk "fresh" "old"
    /\ Keys.isSet this2 = true.
Proof.
  intros gen.
  apply (@generate_both_keys_sets_the_object _ gen (Keys.mk "" "old")
           Reference.emptyWorld "fresh" "old");
    [reflexivity | reflexivity | discriminate | discriminate].
Defined.

Lemma keys_load_fresh_and_save_load_witness :
  let this := Keys.mk "klave-key" "storage \ key" in
  (exists fresh, @Keys.load Reference.keys_json Reference.emptyWorld
                   = Normal (fresh, Reference.emptyWorld)
                 /\ Keys.isSet fresh = false)
  /\ exists w', @Keys.save Reference.keys_json this Reference.emptyWorld
                  = Normal (tt, w')
                /\ @Keys.load Reference.keys_json w' = Normal (this, w').
Proof.
  intros this.
  destruct (@keys_load_fresh_and_save_load Reference.keys_json
              reference_keys_json_faithful) as [Hfresh Hround].
  split.
  - destruct (Hfresh Reference.emptyWorld eq_refl) as (fresh & Hload & _ & _ & Hset).
    now exists fresh.
  - destruct (Hround this Reference.emptyWorld) as (w' & Hsave & Hload & _).
    now exists w'.
Defined.

Lemma rmPemDecorators_on_undecorated_text_witness :
  Api.rmPemDecorators "MHcCAQEEIIr+/xoUQDQgAE9w==" "EC PRIVATE"
  = "MHcCAQEEIIr+/xoUQDQgAE9w==".
Proof.
  apply (proj2 (rmPemDecorators_on_undecorated_text
                  "MHcCAQEEIIr+/xoUQDQgAE9w==" "EC PRIVATE")).
  reflexivity.
Defined.

Lemma rmPemDecorators_strips_the_first_document_only_witness :
  let eol := String Api.newline "" in
  Api.rmPemDecorators
    (Api.pemDocument "PUBLIC" eol ["MFkw"; "EwYH"]
     +:+ Api.pemDocument "PUBLIC" eol ["KoZI"]) "PUBLIC"
  = "MFkwEwYH-----BEGIN PUBLIC KEY-----KoZI-----END PUBLIC KEY-----".
Proof.
  intros eol.
  rewrite (rmPemDecorators_strips_the_first_document_only "PUBLIC" eol
             ["MFkw"; "EwYH"] ["KoZI"]); reflexivity.
Defined.

(** ** A send failure and the callbacks fired before its handler runs *)

Section SendFailureTiming.
Variable klaveContract : string.
Variable h : Api.Handler.

(** X20: the rejection of [send()] reaches the promise only when the
    handler given to [catch] runs, a microtask later.  A result or
    error callback fired in between settles the promise first: the
    operation is then fulfilled with the result, or rejected with the
    callback's error, and the send failure is dropped. *)
Theorem callback_fired_before_the_catch_handler_wins (op : Api.Operation)
    (tx : Api.Transaction) (script : list Api.Action) :
  true ∈ Api.isConnected h ->
  Api.request h (Api.requestOf klaveContract h op) = Api.Fulfilled tx ->
  Api.events tx = Api.invocations script ->
  (forall reason value later,
     script = Api.RejectSend reason :: Api.FireResult value :: later ->
     Api.call klaveContract h op = Api.Fulfilled value)
  /\ (forall reason error later,
        script = Api.RejectSend reason :: Api.FireError error :: later ->
        Api.call klaveContract h op = Api.Rejected error).
Proof.
  intros Hready Hrequest Hevents.
  rewrite (call_when_sent klaveContract h _ _ Hready Hrequest).
  split; intros reason x later ->;
    now rewrite (awaitTransaction_first _ _ _ Hevents).
Qed.

End SendFailureTiming.

Lemma callback_fired_before_the_catch_handler_wins_witness :
  let script := [Api.RejectSend (Api.JSString "socket closed");
                 Api.FireResult (Api.JSString "done"); Api.RunReactions] in
  let tx := Api.mkTransaction (Api.invocations script) in
  let h := Api.mkHandler [false; true] "0.5" (fun _ => Api.Fulfilled tx) in
  Api.call "contract" h Api.GetUser = Api.Fulfilled (Api.JSString "done").
Proof.
  intros script tx h.
  refine (proj1 (callback_fired_before_the_catch_handler_wins "contract" h
                   Api.GetUser tx script _ _ _)
                (Api.JSString "socket closed") (Api.JSString "done")
                [Api.RunReactions] _);
    [apply (bool_decide_unpack _); vm_compute; exact I
    | reflexivity | reflexivity | reflexivity].
Defined.
